(** * neon-core wallet Balance: a shallow embedding of
      packages/neon-core/src/wallet/Balance.ts and the properties of its
      UTXO ledger (applyTx, confirm, verifyAssets, export). *)

From Stdlib Require Import List String Ascii ZArith NArith Bool Lia Permutation Sorted.
Import ListNotations.

Open Scope string_scope.
Open Scope Z_scope.
Open Scope list_scope.

(** ** JavaScript values the module relies on *)

(** Exceptions the code can raise: a property read on [undefined], or a
    rejected remote query. *)
Inductive JsError : Type :=
| TypeError
| QueryFailure.

(** The result of running a piece of mutating code on a store [S]: the store
    it leaves behind, and whether it returned or threw.  Mutation is in
    place, so a throw keeps every write done before it. *)
Inductive Completion (S : Type) : Type :=
| Normal (s : S)
| Abrupt (e : JsError) (s : S).
Arguments Normal {S} s.
Arguments Abrupt {S} e s.

Definition store {S} (c : Completion S) : S :=
  match c with Normal s => s | Abrupt _ s => s end.

Definition returns {S} (c : Completion S) : bool :=
  match c with Normal _ => true | Abrupt _ _ => false end.

Definition andThen {S} (c : Completion S) (k : S -> Completion S) : Completion S :=
  match c with Normal s => k s | Abrupt e s => Abrupt e s end.

(** Upper-casing of a string of ASCII characters: a-z to A-Z. *)
Definition upper_ascii (c : ascii) : ascii :=
  let n := nat_of_ascii c in
  if (Nat.leb 97 n && Nat.leb n 122)%bool then ascii_of_nat (n - 32) else c.

Fixpoint asciiUpperCase (s : string) : string :=
  match s with
  | EmptyString => EmptyString
  | String c s' => String (upper_ascii c) (asciiUpperCase s')
  end.

(** Array.prototype.findIndex; [None] stands for -1. *)
Fixpoint findIndex {A} (f : A -> bool) (l : list A) : option nat :=
  match l with
  | [] => None
  | x :: l' =>
      if f x then Some 0%nat
      else match findIndex f l' with Some i => Some (S i) | None => None end
  end.

(** [arr.splice(ind, 1)]: the removed elements and the array left behind. *)
Definition splice1 {A} (ind : nat) (l : list A) : list A * list A :=
  (firstn 1 (skipn ind l), firstn ind l ++ skipn (S ind) l).

(** ** Plain objects used as string-keyed maps

    An object is the list of its own properties in insertion order.
    Assigning to an existing key keeps its position; [Object.keys] lists
    array-index keys first, in ascending numeric order, then the other keys
    in insertion order. *)
Module JsObj.
Section Obj.
Context {V : Type}.

Definition t := list (string * V).

Definition empty : t := [].

Fixpoint get (o : t) (k : string) : option V :=
  match o with
  | [] => None
  | (k', v) :: o' => if (k' =? k)%string then Some v else get o' k
  end.

Fixpoint set (o : t) (k : string) (v : V) : t :=
  match o with
  | [] => [(k, v)]
  | (k', v') :: o' =>
      if (k' =? k)%string then (k', v) :: o' else (k', v') :: set o' k v
  end.

Definition insertion_keys (o : t) : list string := map fst o.

End Obj.
Arguments t V : clear implicits.

Definition digit (c : ascii) : option N :=
  let n := N_of_ascii c in
  if (48 <=? n)%N && (n <=? 57)%N then Some (n - 48)%N else None.

Fixpoint digits (s : string) (acc : N) : option N :=
  match s with
  | EmptyString => Some acc
  | String c s' =>
      match digit c with
      | Some d => digits s' (10 * acc + d)%N
      | None => None
      end
  end.

(** A key is an array index when it is the canonical decimal form of an
    integer below 2^32 - 1. *)
Definition array_index (s : string) : option N :=
  match s with
  | EmptyString => None
  | String c s' =>
      if (c =? "0")%char then
        match s' with EmptyString => Some 0%N | _ => None end
      else
        match digits s 0%N with
        | Some n => if (n <? 4294967295)%N then Some n else None
        | None => None
        end
  end.

Fixpoint insert_index (x : N * string) (l : list (N * string)) : list (N * string) :=
  match l with
  | [] => [x]
  | y :: l' => if (fst x <=? fst y)%N then x :: l else y :: insert_index x l'
  end.

Fixpoint sort_index (l : list (N * string)) : list (N * string) :=
  match l with
  | [] => []
  | x :: l' => insert_index x (sort_index l')
  end.

(** The order the array-index keys are listed in. *)
Definition le_index (x y : N * string) : Prop := (fst x <= fst y)%N.

Fixpoint index_keys (ks : list string) : list (N * string) :=
  match ks with
  | [] => []
  | k :: ks' =>
      match array_index k with
      | Some n => (n, k) :: index_keys ks'
      | None => index_keys ks'
      end
  end.

Definition is_index (k : string) : bool :=
  match array_index k with Some _ => true | None => false end.

Definition order_keys (ks : list string) : list string :=
  map snd (sort_index (index_keys ks)) ++ filter (fun k => negb (is_index k)) ks.

(** Object.keys *)
Definition keys {V} (o : t V) : list string := order_keys (insertion_keys o).

End JsObj.

(** ** Data model *)

(** Modelled from the spec: the Fixed8 class (u/Fixed8) is not part of the
    sources at hand.  An amount is the integer number of 10^-8 units it
    holds; [add] is integer addition and [equals] integer equality. *)
Definition Fixed8 : Type := Z.

(** Modelled from the spec: the Coin class (wallet/components/Coin) is not
    part of the sources at hand.  A coin is its output index, the id of the
    transaction that created it, and its value. *)
Record Coin : Type := mkCoin {
  index : Z;
  txid : string;
  value : Fixed8
}.

(** Modelled from the spec: the AssetBalance class
    (wallet/components/AssetBalance) is not part of the sources at hand.  It
    holds three coin lists; its [balance] is derived from [unspent] and
    equals the sum of the unspent values whenever it is read (Balance.ts
    never writes it, and mutates [unspent] in place). *)
Record AssetBalance : Type := mkAssetBalance {
  unspent : list Coin;
  spent : list Coin;
  unconfirmed : list Coin
}.

Definition balance (ab : AssetBalance) : Fixed8 :=
  fold_left (fun p c => p + value c) (unspent ab) 0.

(** The parts of a transaction the ledger reads. *)
Record TransactionInput : Type := mkInput {
  prevHash : string;
  prevIndex : Z
}.

Record TransactionOutput : Type := mkOutput {
  assetId : string;
  outputValue : Fixed8;
  scriptHash : string
}.

Record BaseTransaction : Type := mkTx {
  hash : string;
  inputs : list TransactionInput;
  outputs : list TransactionOutput
}.

(** class Balance *)
Record Balance : Type := mkBalance {
  address : string;
  net : string;
  assetSymbols : list string;
  assets : JsObj.t AssetBalance;
  tokenSymbols : list string;
  tokens : JsObj.t Fixed8
}.

Definition with_assets (b : Balance) (a : JsObj.t AssetBalance) : Balance :=
  mkBalance (address b) (net b) (assetSymbols b) a (tokenSymbols b) (tokens b).

(** [x || d] on strings: the empty string and [undefined] are falsy. *)
Definition or_default (x : option string) (d : string) : string :=
  match x with
  | Some s => if (s =? "")%string then d else s
  | None => d
  end.

(** [new Balance()]: no address, the network "NoNet", nothing tracked. *)
Definition emptyBalance : Balance :=
  mkBalance "" "NoNet" [] JsObj.empty [] JsObj.empty.

(** ** Remote verification *)

(** A settled promise. *)
Inductive Promise (A : Type) : Type :=
| Fulfilled (a : A)
| Rejected (e : JsError).
Arguments Fulfilled {A} a.
Arguments Rejected {A} e.

(** Promise.all on promises that have all settled: the values in order, or
    a rejection when one of them rejected. *)
Fixpoint Promise_all {A} (ps : list (Promise A)) : Promise (list A) :=
  match ps with
  | [] => Fulfilled []
  | Fulfilled a :: ps' =>
      match Promise_all ps' with
      | Fulfilled l => Fulfilled (a :: l)
      | Rejected e => Rejected e
      end
  | Rejected e :: _ => Rejected e
  end.

(** The [result] member of a getTxOut response, when the output exists. *)
Record TxOut : Type := mkTxOut {
  n : Z;
  txOutValue : Fixed8
}.


(** ** Sample data for the scenarios *)

Definition gasId : string :=
  "602c79718b16e442de58778e148d0b1084e3b2dffd5de6b7b16cee7969282de7".

Definition neoId : string :=
  "c56f33fc6ecfcd0c225c4ab356fee59390af8560be0e930faebe74a6daff7c9b".

(** Modelled from the spec: the registry ASSETS of ../consts is not part of
    the sources at hand; a table listing the two native assets stands for
    it in the scenarios. *)
Definition nativeAssets (id : string) : option string :=
  if (id =? neoId)%string then Some "NEO"
  else if (id =? gasId)%string then Some "GAS"
  else None.

(** Ten units, as a Fixed8. *)
Definition ten : Fixed8 := 1000000000.

(** Scenario A: no input, one output of ten GAS. *)
Definition txA : BaseTransaction :=
  mkTx "aa" [] [mkOutput gasId ten "addr"].

(** Scenario C: one input spending output 0 of [txA], no output. *)
Definition txC : BaseTransaction :=
  mkTx "cc" [mkInput "aa" 0] [].

(** The empty Balance after [addAsset("GAS")]. *)
Definition gasOnly : Balance :=
  mkBalance "" "NoNet" ["GAS"] [("GAS", mkAssetBalance [] [] [])] [] [].

(** The empty Balance after [addAsset("GAS")] twice. *)
Definition gasTwice : Balance :=
  mkBalance "" "NoNet" ["GAS"; "GAS"] [("GAS", mkAssetBalance [] [] [])] [] [].

(** The coin Scenario A creates. *)
Definition coinA : Coin := mkCoin 0 "aa" ten.

(** Two tracked assets, the second holding [coinA] unspent. *)
Definition twoLedgers : JsObj.t AssetBalance :=
  [("NEO", mkAssetBalance [] [] []); ("GAS", mkAssetBalance [coinA] [] [])].

(** The Balance of Scenario A, once the asset is tracked. *)
Definition scenarioA : Balance :=
  mkBalance "" "NoNet" ["GAS"] [("GAS", mkAssetBalance [] [] [coinA])] [] [].

(** Scenario D: one unspent coin of five units, with an older spent coin and
    a pending one next to it. *)
Definition coinD : Coin := mkCoin 1 "dd" 500000000.

Definition scenarioD : Balance :=
  mkBalance "" "NoNet" ["GAS"]
    [("GAS", mkAssetBalance [coinD] [coinA] [mkCoin 0 "ee" ten])] [] [].

(** A node that knows none of the outputs it is asked about. *)
Definition nodeWithout : string -> string -> Z -> Promise (option TxOut) :=
  fun _ _ _ => Fulfilled None.

(** A node that cannot be reached. *)
Definition nodeDown : string -> string -> Z -> Promise (option TxOut) :=
  fun _ _ _ => Rejected QueryFailure.

(** A Balance with a token. *)
Definition withToken : Balance :=
  mkBalance "" "NoNet" ["GAS"] [("GAS", mkAssetBalance [] [] [])] ["RPX"] [("RPX", 5)].

(** A transaction paying an asset the registry does not list. *)
Definition txUnknown : BaseTransaction :=
  mkTx "uu" [] [mkOutput "00" ten "addr"].

(** Two outputs of GAS and one of NEO. *)
Definition txThree : BaseTransaction :=
  mkTx "tt" [mkInput "aa" 0]
    [mkOutput gasId ten "addr"; mkOutput neoId 1 "addr"; mkOutput gasId 7 "addr"].

(** A Balance tracking both native assets, holding [coinA] unspent. *)
Definition bothAssets : Balance :=
  mkBalance "" "NoNet" ["NEO"; "GAS"]
    [("NEO", mkAssetBalance [] [] []); ("GAS", mkAssetBalance [coinA] [] [])] [] [].

(** The instance of the built-in functions the scenarios run with: symbols
    of ASCII letters, on which String.prototype.toUpperCase maps a-z to A-Z,
    and amounts small enough for a JS number to hold exactly.  No scenario
    gives an amount as a string, so the parsing of [new Fixed8(string)] is
    never run there. *)
Definition sampleNumber : Type := Z.
Definition sampleToNumber (v : Fixed8) : sampleNumber := v.
Definition sampleOfNumber (x : sampleNumber) : Fixed8 := x.
Definition sampleOfString (s : string) : Fixed8 := 0.

(** ** The program, over the built-in functions it calls *)

Section Program.
Set Default Proof Using "Type".

(** String.prototype.toUpperCase.  It is idempotent, and it does not leave
    the word "undefined" as it is. *)
Variable toUpperCase : string -> string.
Hypothesis toUpperCase_idempotent :
  forall s, toUpperCase (toUpperCase s) = toUpperCase s.
Hypothesis toUpperCase_undefined : toUpperCase "undefined" <> "undefined".

(** JS numbers, and the conversions of the Fixed8 class that is not part of
    the sources at hand: [toNumber] is Fixed8.prototype.toNumber, [ofNumber]
    and [ofString] are [new Fixed8(x)] on a number and on a string. *)
Variable JsNumber : Type.
Variable toNumber : Fixed8 -> JsNumber.
Variable ofNumber : JsNumber -> Fixed8.
Variable ofString : string -> Fixed8.

(** An amount as a snapshot carries it: [number | string | Fixed8]. *)
Inductive Amount : Type :=
| ANumber (x : JsNumber)
| AString (s : string)
| AFixed8 (v : Fixed8).

(** [new Fixed8(amount)]; a Fixed8 is copied. *)
Definition newFixed8 (a : Amount) : Fixed8 :=
  match a with
  | ANumber x => ofNumber x
  | AString s => ofString s
  | AFixed8 v => v
  end.

(** Modelled from the spec: the snapshot of a coin,
    [{ index: integer, txid: string, value: numeric }]. *)
Record CoinLike : Type := mkCoinLike {
  like_index : Z;
  like_txid : string;
  like_value : Amount
}.

(** Modelled from the spec: [new Coin(coinLike)]. *)
Definition newCoin (c : CoinLike) : Coin :=
  mkCoin (like_index c) (like_txid c) (newFixed8 (like_value c)).

(** Modelled from the spec: Coin.export, with the value as a number. *)
Definition exportCoin (c : Coin) : CoinLike :=
  mkCoinLike (index c) (txid c) (ANumber (toNumber (value c))).

(** A Coin read where a snapshot of a coin is expected. *)
Definition coinAsLike (c : Coin) : CoinLike :=
  mkCoinLike (index c) (txid c) (AFixed8 (value c)).

(** Snapshot of an asset ledger, every field optional
    (Partial<AssetBalanceLike>). *)
Record AssetBalanceLike : Type := mkAssetBalanceLike {
  like_balance : option Amount;
  like_unspent : option (list CoinLike);
  like_spent : option (list CoinLike);
  like_unconfirmed : option (list CoinLike)
}.

(** Modelled from the spec: the AssetBalance constructor normalises a partial
    snapshot; a missing list is empty, each coin is built from its snapshot,
    and the balance is recomputed from the unspent coins rather than read
    from the snapshot. *)
Definition newAssetBalance (abLike : option AssetBalanceLike) : AssetBalance :=
  match abLike with
  | None => mkAssetBalance [] [] []
  | Some l =>
      mkAssetBalance
        (match like_unspent l with Some cs => map newCoin cs | None => [] end)
        (match like_spent l with Some cs => map newCoin cs | None => [] end)
        (match like_unconfirmed l with Some cs => map newCoin cs | None => [] end)
  end.

(** Modelled from the spec: AssetBalance.export gives the numeric balance and
    the three serialised coin lists. *)
Definition exportAssetBalance (ab : AssetBalance) : AssetBalanceLike :=
  mkAssetBalanceLike (Some (ANumber (toNumber (balance ab))))
    (Some (map exportCoin (unspent ab)))
    (Some (map exportCoin (spent ab))) (Some (map exportCoin (unconfirmed ab))).

(** interface BalanceLike, every field optional (Partial<BalanceLike>); the
    exported token amounts are numbers. *)
Record BalanceLike : Type := mkBalanceLike {
  like_address : option string;
  like_net : option string;
  like_assetSymbols : option (list string);
  like_assets : option (JsObj.t AssetBalanceLike);
  like_tokenSymbols : option (list string);
  like_tokens : option (JsObj.t Amount)
}.

(** Balance.addAsset *)
Definition addAsset (sym : string) (assetBalance : option AssetBalanceLike)
    (b : Balance) : Balance :=
  let sym := toUpperCase sym in
  mkBalance (address b) (net b) (assetSymbols b ++ [sym])
    (JsObj.set (assets b) sym (newAssetBalance assetBalance))
    (tokenSymbols b) (tokens b).

(** Balance.addToken; a missing amount is the default argument 0. *)
Definition addToken (sym : string) (tokenBalance : option Amount) (b : Balance)
    : Balance :=
  let sym := toUpperCase sym in
  mkBalance (address b) (net b) (assetSymbols b) (assets b)
    (tokenSymbols b ++ [sym])
    (JsObj.set (tokens b) sym
       (match tokenBalance with Some a => newFixed8 a | None => 0 end)).

(** Balance constructor.  The snapshot's symbol lists are not read: both
    lists are rebuilt by addAsset and addToken from the keys of the
    mappings.  Every value of a well-typed [assets] record is an object, so
    the [typeof] test in the loop always passes. *)
Definition newBalance (bal : BalanceLike) : Balance :=
  let b0 :=
    mkBalance (or_default (like_address bal) "") (or_default (like_net bal) "NoNet")
      [] JsObj.empty [] JsObj.empty in
  let b1 :=
    match like_assets bal with
    | Some assets =>
        fold_left (fun b key => addAsset key (JsObj.get assets key) b)
          (JsObj.keys assets) b0
    | None => b0
    end in
  match like_tokens bal with
  | Some tokens =>
      fold_left (fun b key => addToken key (JsObj.get tokens key) b)
        (JsObj.keys tokens) b1
  | None => b1
  end.

(** ** Transaction application, confirmation, verification, export *)

Section Ledger.

(** The static registry ASSETS of ../consts, from asset id to symbol;
    [None] is the [undefined] an unlisted id reads as. *)
Variable ASSETS : string -> option string.

(** The predicate both phases of applyTx search coins with. *)
Definition findFunc (h : string) (i : Z) (el : Coin) : bool :=
  ((txid el =? h)%string && (index el =? i))%bool.

(** The effect of a hit in the spend loop on the asset ledger: the coin at
    [ind] leaves [unspent] and joins the end of [spent]. *)
Definition spendAt (ind : nat) (ab : AssetBalance) : AssetBalance :=
  let (spentCoin, rest) := splice1 ind (unspent ab) in
  mkAssetBalance rest (spent ab ++ spentCoin) (unconfirmed ab).

(** The inner loop of the spend phase, for one input: scan the symbols in
    order and stop at the first ledger holding the coin. *)
Fixpoint spendInput (input : TransactionInput) (symbols : list string)
    (a : JsObj.t AssetBalance) : Completion (JsObj.t AssetBalance) :=
  match symbols with
  | [] => Normal a
  | sym :: symbols' =>
      match JsObj.get a sym with
      | None => Abrupt TypeError a
      | Some assetBalance =>
          match findIndex (findFunc (prevHash input) (prevIndex input))
                  (unspent assetBalance) with
          | Some ind => Normal (JsObj.set a sym (spendAt ind assetBalance))
          | None => spendInput input symbols' a
          end
      end
  end.

(** The spend phase: the outer loop over the inputs.  [symbols] is read once
    before the loop and the phase never changes it. *)
Fixpoint spendCoins (ins : list TransactionInput) (b : Balance) : Completion Balance :=
  match ins with
  | [] => Normal b
  | input :: ins' =>
      match spendInput input (assetSymbols b) (assets b) with
      | Normal a => spendCoins ins' (with_assets b a)
      | Abrupt e a => Abrupt e (with_assets b a)
      end
  end.

(** What the body of the receive loop does to a ledger it found. *)
Definition receiveCoin (confirmed : bool) (coin : Coin) (ab : AssetBalance) : AssetBalance :=
  if confirmed then
    let unconf :=
      match findIndex (findFunc (txid coin) (index coin)) (unconfirmed ab) with
      | Some unconfirmedIndex => snd (splice1 unconfirmedIndex (unconfirmed ab))
      | None => unconfirmed ab
      end in
    mkAssetBalance (unspent ab ++ [coin]) (spent ab) unconf
  else
    mkAssetBalance (unspent ab) (spent ab) (unconfirmed ab ++ [coin]).

(** The receive phase, from output number [i] on.  [assetBalance] is read
    before [addAsset] runs and is not read again: when the symbol is not
    tracked it stays [undefined], and the next property read on it throws
    after addAsset has registered the symbol.  An id missing from the
    registry makes [sym] undefined, which indexes the property "undefined"
    and, when that is missing, throws inside addAsset before any write. *)
Fixpoint addCoins (confirmed : bool) (h : string) (i : Z)
    (outs : list TransactionOutput) (b : Balance) : Completion Balance :=
  match outs with
  | [] => Normal b
  | output :: outs' =>
      let sym := ASSETS (assetId output) in
      let key := match sym with Some s => s | None => "undefined" end in
      match JsObj.get (assets b) key with
      | None =>
          match sym with
          | Some s => Abrupt TypeError (addAsset s None b)
          | None => Abrupt TypeError b
          end
      | Some assetBalance =>
          let coin := mkCoin i h (outputValue output) in
          addCoins confirmed h (i + 1) outs'
            (with_assets b
               (JsObj.set (assets b) key (receiveCoin confirmed coin assetBalance)))
      end
  end.

(** Balance.applyTx, on a transaction already deserialised. *)
Definition applyTx (tx : BaseTransaction) (confirmed : bool) (b : Balance)
    : Completion Balance :=
  andThen (spendCoins (inputs tx) b)
    (fun b' => addCoins confirmed (hash tx) 0 (outputs tx) b').

(** The loop of Balance.confirm. *)
Fixpoint confirmLoop (symbols : list string) (a : JsObj.t AssetBalance)
    : Completion (JsObj.t AssetBalance) :=
  match symbols with
  | [] => Normal a
  | sym :: symbols' =>
      match JsObj.get a sym with
      | None => Abrupt TypeError a
      | Some assetBalance =>
          confirmLoop symbols'
            (JsObj.set a sym
               (mkAssetBalance (unspent assetBalance ++ unconfirmed assetBalance)
                  (spent assetBalance) []))
      end
  end.

(** Balance.confirm *)
Definition confirm (b : Balance) : Completion Balance :=
  match confirmLoop (assetSymbols b) (assets b) with
  | Normal a => Normal (with_assets b a)
  | Abrupt e a => Abrupt e (with_assets b a)
  end.

(** exportAssets *)
Definition exportAssets (a : JsObj.t AssetBalance) : JsObj.t AssetBalanceLike :=
  fold_left
    (fun output key =>
       match JsObj.get a key with
       | Some ab => JsObj.set output key (exportAssetBalance ab)
       | None => output
       end)
    (JsObj.keys a) JsObj.empty.

(** exportTokens *)
Definition exportTokens (t : JsObj.t Fixed8) : JsObj.t Amount :=
  fold_left
    (fun out symbol =>
       match JsObj.get t symbol with
       | Some v => JsObj.set out symbol (ANumber (toNumber v))
       | None => out
       end)
    (JsObj.keys t) JsObj.empty.

(** Balance.export *)
Definition export (b : Balance) : BalanceLike :=
  mkBalanceLike (Some (address b)) (Some (net b)) (Some (assetSymbols b))
    (Some (exportAssets (assets b))) (Some (tokenSymbols b))
    (Some (exportTokens (tokens b))).

End Ledger.

Section Verify.

(** [Query.getTxOut(txid, index).execute(url)]: the query rejects, or
    resolves to a response whose [result] is the output or is missing. *)
Variable getTxOut : string -> string -> Z -> Promise (option TxOut).

(** verifyCoin *)
Definition verifyCoin (url : string) (c : Coin) : Promise bool :=
  match getTxOut url (txid c) (index c) with
  | Rejected e => Rejected e
  | Fulfilled None => Fulfilled false
  | Fulfilled (Some result) =>
      Fulfilled ((index c =? n result) && (value c =? txOutValue result))%bool
  end.

(** verifyCoins *)
Definition verifyCoins (url : string) (coinArr : list Coin) : Promise (list bool) :=
  Promise_all (map (verifyCoin url) coinArr).

(** The forEach of verifyAssetBalance, on the object literal it fills:
    running balance, unspent and spent lists. *)
Definition sortCoin (acc : Fixed8 * list Coin * list Coin) (vc : bool * Coin)
    : Fixed8 * list Coin * list Coin :=
  let '(bal, unsp, sp) := acc in
  let (valid, coin) := vc in
  if valid then (bal + value coin, unsp ++ [coin], sp)
  else (bal, unsp, sp ++ [coin]).

Definition sortCoins (validCoins : list bool) (coins : list Coin)
    : AssetBalanceLike :=
  let acc := fold_left sortCoin (combine validCoins coins) (0, [], []) in
  mkAssetBalanceLike (Some (AFixed8 (fst (fst acc))))
    (Some (map coinAsLike (snd (fst acc)))) (Some (map coinAsLike (snd acc)))
    (Some []).

(** verifyAssetBalance; the argument is [undefined] when the symbol has no
    entry, and reading its [unspent] then rejects the promise. *)
Definition verifyAssetBalance (url : string) (assetBalance : option AssetBalance)
    : Promise AssetBalance :=
  match assetBalance with
  | None => Rejected TypeError
  | Some ab =>
      match verifyCoins url (unspent ab) with
      | Rejected e => Rejected e
      | Fulfilled validCoins =>
          Fulfilled (newAssetBalance (Some (sortCoins validCoins (unspent ab))))
      end
  end.

(** The assignments done once every verification has resolved. *)
Definition replaceAssets (symbols : list string) (newBalances : list AssetBalance)
    (a : JsObj.t AssetBalance) : JsObj.t AssetBalance :=
  fold_left (fun a' p => JsObj.set a' (fst p) (snd p)) (combine symbols newBalances) a.

(** Balance.verifyAssets: the Balance is written only in the continuation of
    Promise.all, which does not run when a verification rejected. *)
Definition verifyAssets (url : string) (b : Balance) : Completion Balance :=
  let symbols := assetSymbols b in
  let promises :=
    map (fun key => verifyAssetBalance url (JsObj.get (assets b) key)) symbols in
  match Promise_all promises with
  | Rejected e => Abrupt e b
  | Fulfilled newBalances =>
      Normal (with_assets b (replaceAssets symbols newBalances (assets b)))
  end.

End Verify.

(** ** Well-formed and reachable states *)

(** Every listed symbol has a ledger, every key is stored upper-cased and
    once, and the network name is not empty: what the constructor
    establishes and every operation keeps. *)
Definition tracked (b : Balance) : Prop :=
  forall sym, In sym (assetSymbols b) -> JsObj.get (assets b) sym <> None.

(** Identity of a coin. *)
Definition coinId (c : Coin) : string * Z := (txid c, index c).

Definition ids (l : list Coin) : list (string * Z) := map coinId l.

Definition disjoint {A} (l1 l2 : list A) : Prop :=
  forall x, In x l1 -> In x l2 -> False.

Definition coinSetsDisjoint (ab : AssetBalance) : Prop :=
  disjoint (ids (unspent ab)) (ids (spent ab)) /\
  disjoint (ids (unspent ab)) (ids (unconfirmed ab)) /\
  disjoint (ids (spent ab)) (ids (unconfirmed ab)).

Definition sumValues (l : list Coin) : Fixed8 :=
  fold_right (fun c s => value c + s) 0 l.

(** Operations a caller can run on a Balance between two reads. *)
Inductive Op : Type :=
| OpAddAsset (sym : string) (assetBalance : option AssetBalanceLike)
| OpApplyTx (tx : BaseTransaction) (confirmed : bool)
| OpConfirm
| OpVerifyAssets (getTxOut : string -> string -> Z -> Promise (option TxOut)) (url : string).

(** The state an operation leaves; a throwing call leaves the writes it did. *)
Definition runOp (ASSETS : string -> option string) (op : Op) (b : Balance) : Balance :=
  match op with
  | OpAddAsset sym ab => addAsset sym ab b
  | OpApplyTx tx confirmed => store (applyTx ASSETS tx confirmed b)
  | OpConfirm => store (confirm b)
  | OpVerifyAssets getTxOut url => store (verifyAssets getTxOut url b)
  end.

Definition runOps (ASSETS : string -> option string) (ops : list Op) (b : Balance) : Balance :=
  fold_left (fun b' op => runOp ASSETS op b') ops b.


(** ** Notions the properties are stated with *)

(** A coin has the identity an input refers to. *)
Definition matches (input : TransactionInput) (c : Coin) : Prop :=
  txid c = prevHash input /\ index c = prevIndex input.

(** A ledger holds, unspent, the coin an input refers to. *)
Definition owns (input : TransactionInput) (ab : AssetBalance) : Prop :=
  exists c, In c (unspent ab) /\ matches input c.

(** What confirm does to one ledger. *)
Definition promote (ab : AssetBalance) : AssetBalance :=
  mkAssetBalance (unspent ab ++ unconfirmed ab) (spent ab) [].

(** A coin passes verification: its query resolved and verifyCoin said yes. *)
Definition coinValid (getTxOut : string -> string -> Z -> Promise (option TxOut))
    (url : string) (c : Coin) : bool :=
  match verifyCoin getTxOut url c with
  | Fulfilled v => v
  | Rejected _ => false
  end.

(** The ledger that replaces [ab] after a verification that resolved. *)
Definition verified (getTxOut : string -> string -> Z -> Promise (option TxOut))
    (url : string) (ab : AssetBalance) : AssetBalance :=
  mkAssetBalance
    (filter (coinValid getTxOut url) (unspent ab))
    (filter (fun c => negb (coinValid getTxOut url c)) (unspent ab))
    [].

(** The replacement computed for a listed symbol. *)
Definition verifiedAt (getTxOut : string -> string -> Z -> Promise (option TxOut))
    (url : string) (a : JsObj.t AssetBalance) (sym : string) : AssetBalance :=
  match JsObj.get a sym with
  | Some ab => verified getTxOut url ab
  | None => mkAssetBalance [] [] []
  end.

(** The loop body shared by exportAssets and exportTokens, for a conversion
    [f] of the values. *)
Definition exportStep {V W} (f : V -> W) (o : JsObj.t V) (out : JsObj.t W)
    (key : string) : JsObj.t W :=
  match JsObj.get o key with
  | Some v => JsObj.set out key (f v)
  | None => out
  end.

(** Every ledger of a mapping satisfies [P]. *)
Definition ledgersAll (P : AssetBalance -> Prop) (a : JsObj.t AssetBalance) : Prop :=
  forall k ab, JsObj.get a k = Some ab -> P ab.

(** A mapping built by assignments: no key twice, every key upper-cased. *)
Definition upperKeys {V} (o : JsObj.t V) : Prop :=
  NoDup (JsObj.insertion_keys o) /\
  forall k, In k (JsObj.insertion_keys o) -> toUpperCase k = k.

Definition wellFormed (b : Balance) : Prop :=
  net b <> "" /\ upperKeys (assets b) /\ upperKeys (tokens b).

(** The data-model invariant of a Balance. *)
Definition sound (b : Balance) : Prop := tracked b /\ wellFormed b.

(** Callers that add assets without a snapshot and never verify. *)
Definition ledgerOp (op : Op) : Prop :=
  match op with
  | OpAddAsset _ None => True
  | OpAddAsset _ (Some _) => False
  | OpApplyTx _ _ => True
  | OpConfirm => True
  | OpVerifyAssets _ _ => False
  end.

(** The hashes of the transactions a run applies, in order. *)
Fixpoint appliedHashes (ops : list Op) : list string :=
  match ops with
  | [] => []
  | OpApplyTx tx _ :: ops' => hash tx :: appliedHashes ops'
  | _ :: ops' => appliedHashes ops'
  end.

(** All coins of a ledger. *)
Definition allCoins (ab : AssetBalance) : list Coin :=
  unspent ab ++ spent ab ++ unconfirmed ab.

(** The invariant behind disjointness, on a list of coins: identities are
    pairwise distinct, and every coin was created by a transaction of [H] or
    is one of the first [i] outputs of the transaction [h] being applied. *)
Definition distinctList (H : list string) (h : string) (i : Z) (l : list Coin) : Prop :=
  NoDup (ids l) /\
  forall c, In c l -> In (txid c) H \/ (txid c = h /\ 0 <= index c < i).

Definition distinctFrom (H : list string) (h : string) (i : Z) (ab : AssetBalance) : Prop :=
  distinctList H h i (allCoins ab).

(** An amount a JS number holds exactly: it survives [toNumber] followed by
    [new Fixed8]. *)
Definition exactAmount (v : Fixed8) : Prop := ofNumber (toNumber v) = v.

Definition exactLedger (ab : AssetBalance) : Prop :=
  forall c, In c (allCoins ab) -> exactAmount (value c).

(** Every coin value and every token amount of the Balance is exact. *)
Definition exactBalance (b : Balance) : Prop :=
  ledgersAll exactLedger (assets b) /\
  forall k v, JsObj.get (tokens b) k = Some v -> exactAmount v.

(** The mapping the spend phase has reached after the inputs [ins], taken
    one after the other. *)
Definition spendAll (ins : list TransactionInput) (symbols : list string)
    (a : JsObj.t AssetBalance) : JsObj.t AssetBalance :=
  fold_left (fun a' input => store (spendInput input symbols a')) ins a.

(** The ledger holds no coin created by transaction [h]; for a confirmed
    application its pending coins do not count. *)
Definition noCoinOf (h : string) (confirmed : bool) (ab : AssetBalance) : Prop :=
  forall c, In c (if confirmed then unspent ab ++ spent ab else allCoins ab) ->
            txid c <> h.

(** What the caller owes before an operation: a snapshot given to addAsset
    has pairwise distinct coin identities, and a transaction is applied to
    a Balance that holds no coin of it, pending ones apart when it is
    applied as confirmed. *)
Definition opAdmissible (op : Op) (b : Balance) : Prop :=
  match op with
  | OpAddAsset _ l => NoDup (ids (allCoins (newAssetBalance l)))
  | OpApplyTx tx confirmed => ledgersAll (noCoinOf (hash tx) confirmed) (assets b)
  | OpConfirm => True
  | OpVerifyAssets _ _ => True
  end.

Fixpoint admissible (ASSETS : string -> option string) (ops : list Op) (b : Balance)
    : Prop :=
  match ops with
  | [] => True
  | op :: ops' => opAdmissible op b /\ admissible ASSETS ops' (runOp ASSETS op b)
  end.

(** The invariant of the receive loop of transaction [h] at output [i]:
    identities are pairwise distinct, and the coins of [h] that count are
    its first [i] outputs. *)
Definition receiving (h : string) (confirmed : bool) (i : Z) (ab : AssetBalance) : Prop :=
  NoDup (ids (allCoins ab)) /\
  forall c, In c (if confirmed then unspent ab ++ spent ab else allCoins ab) ->
            txid c = h -> 0 <= index c < i.

(** ** Notions for the further properties *)

(** The coins the receive loop creates for the ledger stored under [k]: one
    per output whose registry symbol is [k], numbered by the position of the
    output, counted from [i]. *)
Fixpoint coinsFor (ASSETS : string -> option string) (h k : string) (i : Z)
    (outs : list TransactionOutput) : list Coin :=
  match outs with
  | [] => []
  | output :: outs' =>
      match ASSETS (assetId output) with
      | Some s =>
          if (s =? k)%string
          then mkCoin i h (outputValue output) :: coinsFor ASSETS h k (i + 1) outs'
          else coinsFor ASSETS h k (i + 1) outs'
      | None => coinsFor ASSETS h k (i + 1) outs'
      end
  end.

(** Every output is of a registered asset that has a ledger. *)
Definition outputsTracked (ASSETS : string -> option string)
    (outs : list TransactionOutput) (a : JsObj.t AssetBalance) : Prop :=
  forall out, In out outs ->
    exists s, ASSETS (assetId out) = Some s /\ JsObj.get a s <> None.

(** Where the new coins of a ledger land. *)
Definition landed (confirmed : bool) (ab : AssetBalance) (coins : list Coin)
    : AssetBalance :=
  if confirmed
  then mkAssetBalance (unspent ab ++ coins) (spent ab) (unconfirmed ab)
  else mkAssetBalance (unspent ab) (spent ab) (unconfirmed ab ++ coins).

(** No pending coin of the ledger was created by transaction [h]. *)
Definition pendingFree (h : string) (ab : AssetBalance) : Prop :=
  forall c, In c (unconfirmed ab) -> txid c <> h.

(** Every key of the asset mapping is a listed symbol. *)
Definition listedKeys (b : Balance) : Prop :=
  forall k, JsObj.get (assets b) k <> None -> In k (assetSymbols b).

(** No ledger holds a pending coin. *)
Definition drained (b : Balance) : Prop :=
  ledgersAll (fun ab => unconfirmed ab = []) (assets b).

(** Two optional ledgers are both missing, or both present and related. *)
Definition bothOr (R : AssetBalance -> AssetBalance -> Prop)
    (o o' : option AssetBalance) : Prop :=
  match o, o' with
  | Some ab, Some ab' => R ab ab'
  | None, None => True
  | _, _ => False
  end.

(** The spend phase only moves coins from [unspent] to [spent]. *)
Definition spentFrom (ab ab' : AssetBalance) : Prop :=
  Permutation (unspent ab ++ spent ab) (unspent ab' ++ spent ab') /\
  unconfirmed ab' = unconfirmed ab.

(** No listed ledger holds, unspent, a coin one of the inputs refers to. *)
Definition foreignInputs (ins : list TransactionInput) (b : Balance) : Prop :=
  forall input sym ab,
    In input ins -> In sym (assetSymbols b) ->
    JsObj.get (assets b) sym = Some ab -> ~ owns input ab.

(** The coin an input refers to is held at most once: no ledger holds two
    unspent coins with that identity, and no two listed ledgers both hold
    one. *)
Definition heldOnce (input : TransactionInput) (symbols : list string)
    (a : JsObj.t AssetBalance) : Prop :=
  (forall s ab l1 c l2,
     In s symbols -> JsObj.get a s = Some ab ->
     unspent ab = l1 ++ c :: l2 -> matches input c ->
     forall c', In c' (l1 ++ l2) -> ~ matches input c') /\
  (forall s s' ab ab',
     In s symbols -> In s' symbols -> s <> s' ->
     JsObj.get a s = Some ab -> JsObj.get a s' = Some ab' ->
     owns input ab -> ~ owns input ab').

(** ** Lemmas on objects *)

Section Facts.
Context {V : Type}.
Implicit Types (o : JsObj.t V) (k : string) (v : V).

Lemma get_set_eq o k v : JsObj.get (JsObj.set o k v) k = Some v.
Proof.
  induction o as [|[k' v'] o IH]; simpl.
  - now rewrite String.eqb_refl.
  - destruct (String.eqb k' k) eqn:E; simpl; now rewrite E.
Qed.

Lemma get_set_neq o k k' v : k <> k' -> JsObj.get (JsObj.set o k v) k' = JsObj.get o k'.
Proof.
  intros Hne. induction o as [|[k0 v0] o IH]; simpl.
  - destruct (String.eqb k k') eqn:E; [apply String.eqb_eq in E; contradiction | reflexivity].
  - destruct (String.eqb k0 k) eqn:E; simpl.
    + apply String.eqb_eq in E. subst k0.
      destruct (String.eqb k k') eqn:E'; [apply String.eqb_eq in E'; contradiction | reflexivity].
    + now rewrite IH.
Qed.

Lemma get_set o k k' v :
  JsObj.get (JsObj.set o k v) k' = if String.eqb k k' then Some v else JsObj.get o k'.
Proof.
  destruct (String.eqb k k') eqn:E.
  - apply String.eqb_eq in E. subst. apply get_set_eq.
  - apply String.eqb_neq in E. now apply get_set_neq.
Qed.

Lemma set_get_id o k v : JsObj.get o k = Some v -> JsObj.set o k v = o.
Proof.
  induction o as [|[k' v'] o IH]; simpl; [discriminate|].
  destruct (String.eqb k' k) eqn:E; intros H.
  - now inversion H.
  - now rewrite IH.
Qed.

Lemma get_in_keys o k : JsObj.get o k <> None <-> In k (JsObj.insertion_keys o).
Proof.
  induction o as [|[k' v'] o IH]; simpl.
  - split; [congruence | intros []].
  - destruct (String.eqb k' k) eqn:E.
    + apply String.eqb_eq in E. split; [now left | congruence].
    + apply String.eqb_neq in E. rewrite IH. split; [now right | intros [?|?]; [contradiction | assumption]].
Qed.

Lemma get_none_keys o k : JsObj.get o k = None <-> ~ In k (JsObj.insertion_keys o).
Proof.
  rewrite <- get_in_keys. destruct (JsObj.get o k); split; intro H; try congruence.
  exfalso. apply H. discriminate.
Qed.

Lemma keys_set_present o k v :
  JsObj.get o k <> None -> JsObj.insertion_keys (JsObj.set o k v) = JsObj.insertion_keys o.
Proof.
  induction o as [|[k' v'] o IH]; simpl; [congruence|].
  destruct (String.eqb k' k) eqn:E; simpl; intros H; [reflexivity|].
  now rewrite IH.
Qed.

Lemma keys_set_absent o k v :
  JsObj.get o k = None -> JsObj.insertion_keys (JsObj.set o k v) = JsObj.insertion_keys o ++ [k].
Proof.
  induction o as [|[k' v'] o IH]; simpl; [reflexivity|].
  destruct (String.eqb k' k) eqn:E; simpl; intros H; [discriminate|].
  now rewrite IH.
Qed.

(** Assigning a list of JsObj.keys, each with a value that depends on the key
    only: the last assignment wins, and says the same as the first. *)
Lemma get_assign_all (g : string -> V) ks o k :
  JsObj.get (fold_left (fun o' k' => JsObj.set o' k' (g k')) ks o) k
  = if in_dec string_dec k ks then Some (g k) else JsObj.get o k.
Proof.
  revert o. induction ks as [|k0 ks IH]; intros o; simpl; [reflexivity|].
  rewrite IH. destruct (in_dec string_dec k ks) as [Hin|Hnin].
  - destruct (string_dec k0 k); reflexivity.
  - rewrite get_set. destruct (string_dec k0 k) as [->|Hne].
    + now rewrite String.eqb_refl.
    + apply String.eqb_neq in Hne. now rewrite Hne.
Qed.

Lemma keys_assign_fresh (g : string -> V) ks o :
  NoDup ks -> (forall k, In k ks -> JsObj.get o k = None) ->
  JsObj.insertion_keys (fold_left (fun o' k' => JsObj.set o' k' (g k')) ks o)
  = JsObj.insertion_keys o ++ ks.
Proof.
  revert o. induction ks as [|k0 ks IH]; intros o Hnd Hfresh; simpl.
  - now rewrite app_nil_r.
  - inversion Hnd as [|? ? Hnotin Hnd']; subst.
    rewrite IH; auto.
    + rewrite keys_set_absent by (apply Hfresh; now left).
      now rewrite <- app_assoc.
    + intros k Hk. rewrite get_set_neq; [apply Hfresh; now right|].
      intros ->. contradiction.
Qed.

End Facts.

(** ** Arrays *)

Lemma findIndex_Some {A} (f : A -> bool) l i :
  findIndex f l = Some i ->
  exists l1 x l2, l = l1 ++ x :: l2 /\ List.length l1 = i /\ f x = true /\
                  forall y, In y l1 -> f y = false.
Proof.
  revert i. induction l as [|a l IH]; simpl; intros i H; [discriminate|].
  destruct (f a) eqn:Fa.
  - inversion H; subst. exists [], a, l. repeat split; auto. intros y [].
  - destruct (findIndex f l) as [j|] eqn:E; [|discriminate].
    inversion H; subst. destruct (IH j eq_refl) as (l1 & x & l2 & -> & Hlen & Hx & Hl1).
    exists (a :: l1), x, l2. repeat split; simpl; auto.
    intros y [<-|Hy]; auto.
Qed.

Lemma findIndex_None {A} (f : A -> bool) l :
  findIndex f l = None <-> forall x, In x l -> f x = false.
Proof.
  induction l as [|a l IH]; simpl.
  - split; [intros _ x [] | reflexivity].
  - destruct (f a) eqn:Fa.
    + split; [discriminate|]. intros H. specialize (H a (or_introl eq_refl)). congruence.
    + destruct (findIndex f l) as [j|] eqn:E.
      * split; [discriminate|]. intros H.
        assert (Some j = None) by (apply IH; intros x Hx; apply H; now right). discriminate.
      * split; [|reflexivity]. intros _ x [<-|Hx]; [assumption|].
        now apply (proj1 IH).
Qed.

Lemma splice1_at {A} (l1 : list A) x l2 :
  splice1 (List.length l1) (l1 ++ x :: l2) = ([x], l1 ++ l2).
Proof.
  induction l1 as [|a l1 IH]; [reflexivity|].
  unfold splice1 in *. simpl. injection IH as H1 H2.
  rewrite H1. f_equal. f_equal. exact H2.
Qed.

Lemma findFunc_matches input c :
  findFunc (prevHash input) (prevIndex input) c = true <-> matches input c.
Proof.
  unfold findFunc, matches. rewrite andb_true_iff, String.eqb_eq, Z.eqb_eq. tauto.
Qed.

Lemma findIndex_owns input ab :
  findIndex (findFunc (prevHash input) (prevIndex input)) (unspent ab) = None
  <-> ~ owns input ab.
Proof.
  rewrite findIndex_None. unfold owns. split.
  - intros H (c & Hin & Hm). apply findFunc_matches in Hm.
    rewrite (H c Hin) in Hm. discriminate.
  - intros H c Hin.
    destruct (findFunc (prevHash input) (prevIndex input) c) eqn:E; [|reflexivity].
    exfalso. apply H. exists c. split; [assumption|]. now apply findFunc_matches.
Qed.

(** ** The spend phase *)

Lemma spendInput_miss input symbols a :
  (forall sym, In sym symbols -> JsObj.get a sym <> None) ->
  (forall s ab, In s symbols -> JsObj.get a s = Some ab -> ~ owns input ab) ->
  spendInput input symbols a = Normal a.
Proof.
  induction symbols as [|sym symbols IH]; intros Htr Hmiss; simpl; [reflexivity|].
  destruct (JsObj.get a sym) as [ab|] eqn:G.
  - assert (Hn : ~ owns input ab) by (apply (Hmiss sym); [now left | assumption]).
    apply findIndex_owns in Hn. rewrite Hn.
    apply IH; intros; [apply Htr | eapply Hmiss]; eauto; now right.
  - exfalso. apply (Htr sym); [now left | assumption].
Qed.

Lemma spendInput_hit input pre sym post a ab :
  (forall s, In s pre -> JsObj.get a s <> None) ->
  (forall s ab', In s pre -> JsObj.get a s = Some ab' -> ~ owns input ab') ->
  JsObj.get a sym = Some ab -> owns input ab ->
  exists l1 coin l2,
    unspent ab = l1 ++ coin :: l2 /\ matches input coin /\
    (forall c, In c l1 -> ~ matches input c) /\
    spendInput input (pre ++ sym :: post) a
    = Normal (JsObj.set a sym
                (mkAssetBalance (l1 ++ l2) (spent ab ++ [coin]) (unconfirmed ab))).
Proof.
  intros Htr Hmiss G Hown.
  induction pre as [|s pre IH]; simpl.
  - rewrite G.
    destruct (findIndex (findFunc (prevHash input) (prevIndex input)) (unspent ab))
      as [ind|] eqn:F.
    + destruct (findIndex_Some _ _ _ F) as (l1 & coin & l2 & Hu & Hlen & Hc & Hl1).
      exists l1, coin, l2. split; [assumption|]. split; [now apply findFunc_matches|].
      split.
      * intros c Hin Hm. apply findFunc_matches in Hm. rewrite (Hl1 c Hin) in Hm. discriminate.
      * unfold spendAt. rewrite Hu, <- Hlen, splice1_at. reflexivity.
    + apply findIndex_owns in F. contradiction.
  - destruct (JsObj.get a s) as [ab'|] eqn:G'.
    + assert (Hn : ~ owns input ab') by (apply (Hmiss s); [now left | assumption]).
      apply findIndex_owns in Hn. rewrite Hn.
      apply IH; intros; [apply Htr | eapply Hmiss]; eauto; now right.
    + exfalso. apply (Htr s); [now left | assumption].
Qed.

(** The spend loop for one input, on a mapping whose listed symbols all
    have a ledger: the first owner in the order of the symbols loses its
    first matching coin to the end of [spent]; without an owner the mapping
    is left as it was. *)
Lemma spendInput_first_owner input symbols a :
  (forall sym, In sym symbols -> JsObj.get a sym <> None) ->
  (forall pre sym post ab,
      symbols = pre ++ sym :: post ->
      (forall s ab', In s pre -> JsObj.get a s = Some ab' -> ~ owns input ab') ->
      JsObj.get a sym = Some ab -> owns input ab ->
      exists l1 coin l2,
        unspent ab = l1 ++ coin :: l2 /\ matches input coin /\
        (forall c, In c l1 -> ~ matches input c) /\
        spendInput input symbols a
        = Normal (JsObj.set a sym
                    (mkAssetBalance (l1 ++ l2) (spent ab ++ [coin]) (unconfirmed ab))))
  /\
  ((forall s ab, In s symbols -> JsObj.get a s = Some ab -> ~ owns input ab) ->
   spendInput input symbols a = Normal a).
Proof.
  intros Htr. split.
  - intros pre sym post ab -> Hmiss G Hown.
    apply spendInput_hit; auto.
    intros s Hs. apply Htr. apply in_or_app. now left.
  - intros Hmiss. now apply spendInput_miss.
Qed.

Lemma spendInput_keys input symbols a :
  (forall sym, In sym symbols -> JsObj.get a sym <> None) ->
  exists a', spendInput input symbols a = Normal a' /\
             forall k, JsObj.get a' k = None <-> JsObj.get a k = None.
Proof.
  induction symbols as [|sym symbols IH]; intros Htr; simpl.
  - exists a. split; [reflexivity | intros k; reflexivity].
  - destruct (JsObj.get a sym) as [ab|] eqn:G.
    + destruct (findIndex _ (unspent ab)) as [ind|].
      * eexists. split; [reflexivity|]. intros k.
        rewrite get_set. destruct (String.eqb sym k) eqn:E; [|reflexivity].
        apply String.eqb_eq in E. subst k. rewrite G. split; discriminate.
      * apply IH. intros s Hs. apply Htr. now right.
    + exfalso. apply (Htr sym); [now left | assumption].
Qed.

Lemma spendCoins_keys ins b :
  tracked b ->
  exists b', spendCoins ins b = Normal b' /\
             address b' = address b /\ net b' = net b /\
             assetSymbols b' = assetSymbols b /\
             tokenSymbols b' = tokenSymbols b /\ tokens b' = tokens b /\
             (forall k, JsObj.get (assets b') k = None <-> JsObj.get (assets b) k = None).
Proof.
  revert b. induction ins as [|input ins IH]; intros b Htr; simpl.
  - exists b. repeat split; auto.
  - destruct (spendInput_keys input (assetSymbols b) (assets b) Htr) as (a' & -> & Hk).
    destruct (IH (with_assets b a')) as (b' & Hb' & Ha & Hn & Hs & Hts & Ht & Hk').
    + intros sym Hin. simpl in *. intros Hnone. apply Hk in Hnone. now apply (Htr sym).
    + exists b'. simpl in *. repeat split; auto; intros H.
      * apply Hk, Hk', H.
      * apply Hk', Hk, H.
Qed.

(** ** The receive phase *)

(** C1: on the empty Balance, an unconfirmed transaction with no input and
    one output of an asset registered as "GAS" does not leave a coin in
    [unconfirmed]: addAsset registers a zeroed ledger for "GAS", and the next
    statement reads a property of the [undefined] the lookup had returned,
    so the call throws with that ledger still empty. *)
Theorem applyTx_scenarioA_throws (ASSETS : string -> option string) id v recipient h :
  ASSETS id = Some "GAS" ->
  applyTx ASSETS (mkTx h [] [mkOutput id v recipient]) false emptyBalance
  = Abrupt TypeError (addAsset "GAS" None emptyBalance)
  /\ assets (addAsset "GAS" None emptyBalance)
     = [(toUpperCase "GAS", mkAssetBalance [] [] [])].
Proof.
  intros Hreg. unfold applyTx. simpl. rewrite Hreg. simpl. split; reflexivity.
Qed.

(** C2: applyTx does raise in a normal tracking scenario.  On a Balance
    whose listed symbols all have a ledger, a transaction whose first output
    is of a registered asset the Balance does not track yet throws, with
    either value of the confirmed flag. *)
Theorem applyTx_untracked_output_throws (ASSETS : string -> option string)
    b tx confirmed out outs s :
  tracked b ->
  outputs tx = out :: outs ->
  ASSETS (assetId out) = Some s ->
  JsObj.get (assets b) s = None ->
  returns (applyTx ASSETS tx confirmed b) = false.
Proof.
  intros Htr Hout Hreg Hnone. unfold applyTx.
  destruct (spendCoins_keys (inputs tx) b Htr) as (b' & -> & _ & _ & _ & _ & _ & Hk).
  simpl. rewrite Hout. simpl. rewrite Hreg.
  apply Hk in Hnone. rewrite Hnone. reflexivity.
Qed.

(** ** Confirmation *)

Lemma promote_idempotent ab : promote (promote ab) = promote ab.
Proof. unfold promote. simpl. now rewrite app_nil_r. Qed.

Lemma promote_drained ab : unconfirmed ab = [] -> promote ab = ab.
Proof.
  destruct ab as [u s c]. unfold promote. simpl. intros ->. now rewrite app_nil_r.
Qed.

Lemma confirmLoop_spec symbols a :
  (forall sym, In sym symbols -> JsObj.get a sym <> None) ->
  exists a', confirmLoop symbols a = Normal a' /\
    JsObj.insertion_keys a' = JsObj.insertion_keys a /\
    (forall sym, In sym symbols ->
       JsObj.get a' sym = option_map promote (JsObj.get a sym)) /\
    (forall sym, ~ In sym symbols -> JsObj.get a' sym = JsObj.get a sym).
Proof.
  revert a. induction symbols as [|sym symbols IH]; intros a Htr; simpl.
  - exists a. repeat split; auto. intros sym [].
  - destruct (JsObj.get a sym) as [ab|] eqn:G.
    2: { exfalso. apply (Htr sym); [now left | assumption]. }
    fold (promote ab).
    destruct (IH (JsObj.set a sym (promote ab))) as (a' & Heq & Hkeys & Hin & Hout).
    { intros s Hs. rewrite get_set.
      destruct (String.eqb sym s); [discriminate | apply Htr; now right]. }
    exists a'. split; [assumption|]. split.
    { rewrite Hkeys. apply keys_set_present. congruence. }
    split.
    + intros s Hs. destruct (in_dec string_dec s symbols) as [Hi|Hni].
      * rewrite (Hin s Hi), get_set.
        destruct (String.eqb sym s) eqn:E; [|reflexivity].
        apply String.eqb_eq in E. subst s. rewrite G. simpl.
        now rewrite promote_idempotent.
      * rewrite (Hout s Hni), get_set.
        destruct Hs as [->|Hs]; [|contradiction].
        rewrite String.eqb_refl, G. reflexivity.
    + intros s Hs. rewrite Hout by (intros Hi; apply Hs; now right).
      apply get_set_neq. intros ->. apply Hs. now left.
Qed.

Lemma confirmLoop_drained symbols a :
  (forall sym, In sym symbols -> JsObj.get a sym <> None) ->
  (forall sym ab, In sym symbols -> JsObj.get a sym = Some ab -> unconfirmed ab = []) ->
  confirmLoop symbols a = Normal a.
Proof.
  induction symbols as [|sym symbols IH]; intros Htr Hdr; simpl; [reflexivity|].
  destruct (JsObj.get a sym) as [ab|] eqn:G.
  2: { exfalso. apply (Htr sym); [now left | assumption]. }
  fold (promote ab). rewrite promote_drained by (apply (Hdr sym); [now left | assumption]).
  rewrite set_get_id by assumption.
  apply IH; intros; [apply Htr | eapply Hdr]; eauto; now right.
Qed.

(** C4: on a Balance whose listed symbols all have a ledger, confirm returns
    normally the Balance it was called on, in which every listed symbol's
    ledger has the former unconfirmed coins appended, in order, to the end
    of [unspent] and an empty [unconfirmed]; [spent], the ledgers of symbols
    that are not listed, the keys and their order, the symbol lists, the
    tokens, the address and the network are as before.  A second confirm
    right after changes nothing at all. *)
Theorem confirm_promotes b :
  tracked b ->
  exists b',
    confirm b = Normal b' /\
    address b' = address b /\ net b' = net b /\
    assetSymbols b' = assetSymbols b /\
    tokenSymbols b' = tokenSymbols b /\ tokens b' = tokens b /\
    JsObj.insertion_keys (assets b') = JsObj.insertion_keys (assets b) /\
    (forall sym ab, In sym (assetSymbols b) -> JsObj.get (assets b) sym = Some ab ->
       JsObj.get (assets b') sym
       = Some (mkAssetBalance (unspent ab ++ unconfirmed ab) (spent ab) [])) /\
    (forall sym, ~ In sym (assetSymbols b) ->
       JsObj.get (assets b') sym = JsObj.get (assets b) sym) /\
    confirm b' = Normal b'.
Proof.
  intros Htr. unfold confirm.
  destruct (confirmLoop_spec (assetSymbols b) (assets b) Htr)
    as (a' & Heq & Hkeys & Hin & Hout).
  rewrite Heq. exists (with_assets b a'). simpl.
  repeat split; auto.
  - intros sym ab Hs G. rewrite (Hin sym Hs), G. reflexivity.
  - rewrite confirmLoop_drained; [destruct b; reflexivity | |].
    + intros sym Hs. rewrite (Hin sym Hs).
      destruct (JsObj.get (assets b) sym) eqn:G; [discriminate|].
      exfalso. now apply (Htr sym).
    + intros sym ab Hs G. rewrite (Hin sym Hs) in G.
      destruct (JsObj.get (assets b) sym); simpl in G; [|discriminate].
      inversion G. reflexivity.
Qed.

(** ** The balance of a ledger *)

Lemma fold_left_sum l acc :
  fold_left (fun p c => p + value c) l acc = acc + sumValues l.
Proof.
  revert acc. induction l as [|c l IH]; intros acc; simpl; [lia|].
  rewrite IH. lia.
Qed.

Lemma balance_sum ab : balance ab = sumValues (unspent ab).
Proof. unfold balance. now rewrite fold_left_sum. Qed.

Lemma sumValues_app l1 l2 : sumValues (l1 ++ l2) = sumValues l1 + sumValues l2.
Proof. induction l1 as [|c l1 IH]; simpl; [reflexivity | rewrite IH; lia]. Qed.

Lemma sortCoin_sum zs bal unsp sp :
  bal = sumValues unsp ->
  fst (fst (fold_left sortCoin zs (bal, unsp, sp)))
  = sumValues (snd (fst (fold_left sortCoin zs (bal, unsp, sp)))).
Proof.
  revert bal unsp sp. induction zs as [|[valid coin] zs IH]; intros bal unsp sp Hb; simpl.
  - assumption.
  - destruct valid; apply IH; [|assumption].
    rewrite sumValues_app. simpl. lia.
Qed.

Lemma newCoin_coinAsLike l : map newCoin (map coinAsLike l) = l.
Proof.
  induction l as [|c l IH]; simpl; [reflexivity|].
  rewrite IH. now destruct c.
Qed.

(** The running balance verifyAssetBalance adds up is the balance of the
    ledger it then constructs. *)
Lemma sortCoins_balance validCoins coins :
  like_balance (sortCoins validCoins coins)
  = Some (AFixed8 (balance (newAssetBalance (Some (sortCoins validCoins coins))))).
Proof.
  rewrite balance_sum. unfold sortCoins. simpl. rewrite newCoin_coinAsLike.
  f_equal. f_equal. now apply sortCoin_sum.
Qed.

(** ** Distinct identities *)

Lemma NoDup_app_disjoint {A} (l1 l2 : list A) :
  NoDup (l1 ++ l2) -> disjoint l1 l2.
Proof.
  induction l1 as [|a l1 IH]; simpl; intros Hnd x H1 H2; [contradiction|].
  inversion Hnd as [|? ? Hnotin Hnd']; subst.
  destruct H1 as [->|H1].
  - apply Hnotin. apply in_or_app. now right.
  - now apply (IH Hnd' x).
Qed.

Lemma distinctList_perm H h i l l' :
  Permutation l l' -> distinctList H h i l -> distinctList H h i l'.
Proof.
  intros Hp [Hnd Horg]. split.
  - apply (Permutation_NoDup (l := ids l)); [|assumption].
    unfold ids. now apply Permutation_map.
  - intros c Hc. apply Horg. apply (Permutation_in (l := l')); [|assumption].
    now apply Permutation_sym.
Qed.

Lemma distinctList_tail H h i x l :
  distinctList H h i (x :: l) -> distinctList H h i l.
Proof.
  intros [Hnd Horg]. split.
  - simpl in Hnd. now inversion Hnd.
  - intros c Hc. apply Horg. now right.
Qed.

Lemma distinctList_mono H h i j l :
  i <= j -> distinctList H h i l -> distinctList H h j l.
Proof.
  intros Hij [Hnd Horg]. split; [assumption|].
  intros c Hc. destruct (Horg c Hc) as [?|[? ?]]; [now left | right; split; [assumption | lia]].
Qed.

Lemma distinctList_fresh H h i v l :
  ~ In h H -> 0 <= i ->
  distinctList H h i l -> distinctList H h (i + 1) (mkCoin i h v :: l).
Proof.
  intros Hh Hi [Hnd Horg]. split.
  - simpl. constructor; [|assumption].
    unfold ids. rewrite in_map_iff. intros (c & Hid & Hc).
    unfold coinId in Hid. simpl in Hid. inversion Hid as [[Ht Hidx]].
    destruct (Horg c Hc) as [Hin|[_ Hlt]].
    + rewrite Ht in Hin. contradiction.
    + lia.
  - intros c [<-|Hc]; simpl.
    + right. split; [reflexivity | lia].
    + destruct (Horg c Hc) as [?|[? ?]]; [now left | right; split; [assumption | lia]].
Qed.

(** Moving to the next transaction: the one just applied joins [H]. *)
Lemma distinctList_next H h i h' l :
  distinctList H h i l -> distinctList (h :: H) h' 0 l.
Proof.
  intros [Hnd Horg]. split; [assumption|].
  intros c Hc. left. destruct (Horg c Hc) as [?|[? _]]; [now right | now left].
Qed.

Lemma distinctFrom_empty H h i : distinctFrom H h i (mkAssetBalance [] [] []).
Proof. split; [constructor | intros c []]. Qed.

Lemma distinctFrom_spend H h i ab l1 c l2 :
  unspent ab = l1 ++ c :: l2 ->
  distinctFrom H h i ab ->
  distinctFrom H h i (mkAssetBalance (l1 ++ l2) (spent ab ++ [c]) (unconfirmed ab)).
Proof.
  unfold distinctFrom, allCoins. simpl. intros -> Hd.
  apply (distinctList_perm H h i ((l1 ++ c :: l2) ++ spent ab ++ unconfirmed ab));
    [|assumption].
  transitivity (c :: l1 ++ l2 ++ spent ab ++ unconfirmed ab).
  - rewrite <- app_assoc. simpl. apply Permutation_sym, Permutation_middle.
  - rewrite <- !app_assoc. simpl. rewrite !app_assoc. apply Permutation_middle.
Qed.

Lemma distinctFrom_promote H h i ab :
  distinctFrom H h i ab -> distinctFrom H h i (promote ab).
Proof.
  unfold distinctFrom, allCoins, promote. simpl. apply distinctList_perm.
  rewrite app_nil_r, <- app_assoc. apply Permutation_app_head.
  apply Permutation_app_comm.
Qed.

Lemma distinctFrom_receive H h i confirmed v ab :
  ~ In h H -> 0 <= i ->
  distinctFrom H h i ab ->
  distinctFrom H h (i + 1) (receiveCoin confirmed (mkCoin i h v) ab).
Proof.
  intros Hh Hi Hd. unfold distinctFrom, allCoins, receiveCoin in *.
  destruct confirmed; cbv beta iota.
  - destruct (findIndex _ (unconfirmed ab)) as [ind|] eqn:F; cbn [unspent spent unconfirmed].
    + destruct (findIndex_Some _ _ _ F) as (l1 & x & l2 & Hu & Hlen & _ & _).
      rewrite Hu, <- Hlen, splice1_at. cbn [snd]. rewrite Hu in Hd.
      apply (distinctList_perm H h (i + 1)
               (mkCoin i h v :: unspent ab ++ spent ab ++ l1 ++ l2)).
      { rewrite <- app_assoc. simpl. apply Permutation_middle. }
      apply distinctList_fresh; try assumption.
      apply (distinctList_tail H h i x).
      revert Hd. apply distinctList_perm.
      rewrite !app_assoc. apply Permutation_sym, Permutation_middle.
    + apply (distinctList_perm H h (i + 1)
               (mkCoin i h v :: unspent ab ++ spent ab ++ unconfirmed ab)).
      { rewrite <- app_assoc. simpl. apply Permutation_middle. }
      now apply distinctList_fresh.
  - cbn [unspent spent unconfirmed].
    apply (distinctList_perm H h (i + 1)
             (mkCoin i h v :: unspent ab ++ spent ab ++ unconfirmed ab)).
    { rewrite !app_assoc. apply Permutation_cons_append. }
    now apply distinctList_fresh.
Qed.

Lemma distinctFrom_disjoint H h i ab : distinctFrom H h i ab -> coinSetsDisjoint ab.
Proof.
  intros [Hnd _]. unfold allCoins, ids in Hnd. rewrite !map_app in Hnd.
  unfold coinSetsDisjoint, ids. repeat split.
  - apply NoDup_app_disjoint. rewrite app_assoc in Hnd.
    now apply NoDup_app_remove_r in Hnd.
  - intros x H1 H2. apply (NoDup_app_disjoint _ _ Hnd x H1).
    apply in_or_app. now right.
  - apply NoDup_app_disjoint. now apply NoDup_app_remove_l in Hnd.
Qed.

Lemma distinctList_rebase H h h' l :
  distinctList H h 0 l -> distinctList H h' 0 l.
Proof.
  intros [Hnd Horg]. split; [assumption|].
  intros c Hc. destruct (Horg c Hc) as [?|[_ ?]]; [now left | lia].
Qed.

(** ** Ledger-wise invariants through the loops *)

Lemma ledgersAll_set (P : AssetBalance -> Prop) a k v :
  P v -> ledgersAll P a -> ledgersAll P (JsObj.set a k v).
Proof.
  intros Hv Ha k' ab. rewrite get_set.
  destruct (String.eqb k k'); [intros G; inversion G; now subst | apply Ha].
Qed.

Lemma ledgersAll_impl (P Q : AssetBalance -> Prop) a :
  (forall ab, P ab -> Q ab) -> ledgersAll P a -> ledgersAll Q a.
Proof. intros HPQ Ha k ab G. apply HPQ. now apply (Ha k). Qed.

Lemma spendAt_split f ab ind :
  findIndex f (unspent ab) = Some ind ->
  exists l1 c l2, unspent ab = l1 ++ c :: l2 /\
    spendAt ind ab = mkAssetBalance (l1 ++ l2) (spent ab ++ [c]) (unconfirmed ab).
Proof.
  intros F. destruct (findIndex_Some _ _ _ F) as (l1 & c & l2 & Hu & Hlen & _ & _).
  exists l1, c, l2. split; [assumption|].
  unfold spendAt. now rewrite Hu, <- Hlen, splice1_at.
Qed.

Lemma spendInput_all (P : AssetBalance -> Prop) input symbols a :
  (forall ab l1 c l2, unspent ab = l1 ++ c :: l2 -> P ab ->
     P (mkAssetBalance (l1 ++ l2) (spent ab ++ [c]) (unconfirmed ab))) ->
  ledgersAll P a -> ledgersAll P (store (spendInput input symbols a)).
Proof.
  intros Hsp Ha. induction symbols as [|sym symbols IH]; simpl; [assumption|].
  destruct (JsObj.get a sym) as [ab|] eqn:G; [|assumption].
  destruct (findIndex _ (unspent ab)) as [ind|] eqn:F; [|assumption].
  simpl. apply ledgersAll_set; [|assumption].
  destruct (spendAt_split _ _ _ F) as (l1 & c & l2 & Hu & ->).
  apply Hsp; [assumption | now apply (Ha sym)].
Qed.

Lemma spendCoins_all (P : AssetBalance -> Prop) ins b :
  (forall ab l1 c l2, unspent ab = l1 ++ c :: l2 -> P ab ->
     P (mkAssetBalance (l1 ++ l2) (spent ab ++ [c]) (unconfirmed ab))) ->
  ledgersAll P (assets b) -> ledgersAll P (assets (store (spendCoins ins b))).
Proof.
  intros Hsp. revert b. induction ins as [|input ins IH]; intros b Ha; simpl; [assumption|].
  pose proof (spendInput_all P input (assetSymbols b) (assets b) Hsp Ha) as Hs.
  destruct (spendInput input (assetSymbols b) (assets b)) as [a'|e a']; simpl in *.
  - now apply IH.
  - assumption.
Qed.

Lemma confirmLoop_all (P : AssetBalance -> Prop) symbols a :
  (forall ab, P ab -> P (promote ab)) ->
  ledgersAll P a -> ledgersAll P (store (confirmLoop symbols a)).
Proof.
  intros Hpr. revert a. induction symbols as [|sym symbols IH]; intros a Ha; simpl; [assumption|].
  destruct (JsObj.get a sym) as [ab|] eqn:G; [|assumption].
  apply IH. apply ledgersAll_set; [|assumption].
  apply (Hpr ab). now apply (Ha sym).
Qed.

Lemma confirm_all (P : AssetBalance -> Prop) b :
  (forall ab, P ab -> P (promote ab)) ->
  ledgersAll P (assets b) -> ledgersAll P (assets (store (confirm b))).
Proof.
  intros Hpr Ha. unfold confirm.
  pose proof (confirmLoop_all P (assetSymbols b) (assets b) Hpr Ha) as Hc.
  destruct (confirmLoop (assetSymbols b) (assets b)); assumption.
Qed.

Lemma addCoins_distinct (ASSETS : string -> option string) H h confirmed outs :
  ~ In h H ->
  forall i b, 0 <= i ->
    ledgersAll (distinctFrom H h i) (assets b) ->
    ledgersAll (distinctFrom H h (i + Z.of_nat (List.length outs)))
      (assets (store (addCoins ASSETS confirmed h i outs b))).
Proof.
  intros Hh. induction outs as [|output outs IH]; intros i b Hi Ha.
  - simpl. apply (ledgersAll_impl (distinctFrom H h i)); [|assumption].
    intros ab. apply distinctList_mono. lia.
  - cbn [addCoins].
    destruct (JsObj.get (assets b)
                match ASSETS (assetId output) with Some s => s | None => "undefined" end)
      as [ab|] eqn:G.
    + replace (i + Z.of_nat (List.length (output :: outs)))
        with ((i + 1) + Z.of_nat (List.length outs)) by (simpl List.length; lia).
      apply IH; [lia|]. simpl.
      apply ledgersAll_set.
      * apply distinctFrom_receive; try assumption. now apply (Ha _ _ G).
      * apply (ledgersAll_impl (distinctFrom H h i)); [|assumption].
        intros ab'. apply distinctList_mono. lia.
    + apply (ledgersAll_impl (distinctFrom H h i)).
      { intros ab'. apply distinctList_mono. lia. }
      destruct (ASSETS (assetId output)); simpl; [|assumption].
      apply ledgersAll_set; [apply distinctFrom_empty | assumption].
Qed.

Lemma applyTx_distinct (ASSETS : string -> option string) H tx confirmed b :
  ~ In (hash tx) H ->
  ledgersAll (distinctFrom H "" 0) (assets b) ->
  ledgersAll (distinctFrom (hash tx :: H) "" 0)
    (assets (store (applyTx ASSETS tx confirmed b))).
Proof.
  intros Hh Ha. unfold applyTx.
  assert (Hs : ledgersAll (distinctFrom H (hash tx) 0)
                 (assets (store (spendCoins (inputs tx) b)))).
  { apply spendCoins_all.
    - intros ab l1 c l2. apply distinctFrom_spend.
    - apply (ledgersAll_impl (distinctFrom H "" 0)); [|assumption].
      intros ab. apply distinctList_rebase. }
  destruct (spendCoins (inputs tx) b) as [b'|e b']; simpl in *.
  - apply (ledgersAll_impl
             (distinctFrom H (hash tx) (0 + Z.of_nat (List.length (outputs tx))))).
    { intros ab. apply distinctList_next. }
    apply addCoins_distinct; [assumption | lia | assumption].
  - apply (ledgersAll_impl (distinctFrom H (hash tx) 0)); [|assumption].
    intros ab. apply distinctList_next.
Qed.

Lemma runOps_distinct (ASSETS : string -> option string) ops :
  forall b H,
    Forall ledgerOp ops ->
    NoDup (appliedHashes ops) ->
    (forall h, In h (appliedHashes ops) -> ~ In h H) ->
    ledgersAll (distinctFrom H "" 0) (assets b) ->
    exists H', ledgersAll (distinctFrom H' "" 0) (assets (runOps ASSETS ops b)).
Proof.
  induction ops as [|op ops IH]; intros b H Hops Hnd Hfresh Ha.
  - exists H. assumption.
  - inversion Hops as [|? ? Hop Hops']; subst.
    unfold runOps. simpl fold_left. fold (runOps ASSETS ops (runOp ASSETS op b)).
    destruct op as [sym [l|]|tx confirmed| |g url]; simpl in Hop; try contradiction.
    + apply (IH _ H); try assumption.
      simpl. apply ledgersAll_set; [apply distinctFrom_empty | assumption].
    + simpl in Hnd, Hfresh. inversion Hnd as [|? ? Hnotin Hnd']; subst.
      apply (IH _ (hash tx :: H)); try assumption.
      * intros h Hin [<-|HinH]; [contradiction|].
        apply (Hfresh h); [now right | assumption].
      * simpl. apply applyTx_distinct; [|assumption].
        apply Hfresh. now left.
    + apply (IH _ H); try assumption.
      simpl. apply confirm_all; [|assumption].
      intros ab. apply distinctFrom_promote.
Qed.

(** Disjointness when no transaction hash is applied twice and no snapshot
    is given to addAsset. *)
Lemma coin_sets_disjoint (ASSETS : string -> option string) ops sym ab :
  Forall ledgerOp ops ->
  NoDup (appliedHashes ops) ->
  JsObj.get (assets (runOps ASSETS ops emptyBalance)) sym = Some ab ->
  coinSetsDisjoint ab.
Proof.
  intros Hops Hnd G.
  destruct (runOps_distinct ASSETS ops emptyBalance [] Hops Hnd) as (H' & Hall).
  - intros h _ [].
  - intros k ab' Gk. discriminate.
  - apply (distinctFrom_disjoint H' "" 0). now apply (Hall sym).
Qed.

(** ** Promises *)

Lemma Promise_all_map_ok {A B} (f : A -> Promise B) (g : A -> B) xs :
  (forall x, In x xs -> f x = Fulfilled (g x)) ->
  Promise_all (map f xs) = Fulfilled (map g xs).
Proof.
  induction xs as [|x xs IH]; intros Hf; simpl; [reflexivity|].
  rewrite (Hf x) by now left. rewrite IH; [reflexivity|].
  intros y Hy. apply Hf. now right.
Qed.

Lemma Promise_all_map_inv {A B} (f : A -> Promise B) xs l :
  Promise_all (map f xs) = Fulfilled l ->
  Forall2 (fun x y => f x = Fulfilled y) xs l.
Proof.
  revert l. induction xs as [|x xs IH]; intros l H; simpl in H.
  - inversion H. constructor.
  - destruct (f x) as [y|e] eqn:Fx; [|discriminate].
    destruct (Promise_all (map f xs)) as [l'|e]; [|discriminate].
    inversion H; subst. constructor; [assumption | now apply IH].
Qed.

Lemma Promise_all_map_rejected {A B} (f : A -> Promise B) xs x e :
  In x xs -> f x = Rejected e ->
  exists e', Promise_all (map f xs) = Rejected e'.
Proof.
  induction xs as [|y xs IH]; intros Hin Hx; [contradiction|]. simpl.
  destruct (f y) as [v|e0] eqn:Fy; [|now exists e0].
  destruct Hin as [->|Hin]; [congruence|].
  destruct (IH Hin Hx) as (e' & ->). now exists e'.
Qed.

Lemma Forall2_left_in {A B} (R : A -> B -> Prop) (P : A -> Prop) xs l :
  Forall2 R xs l -> (forall x y, R x y -> P x) -> forall x, In x xs -> P x.
Proof.
  intros HF HR. induction HF as [|x y xs l Hxy _ IH]; intros z Hz; [contradiction|].
  destruct Hz as [<-|Hz]; [now apply (HR x y) | now apply IH].
Qed.

Lemma Forall2_map_eq {A B} (g : A -> B) xs l :
  Forall2 (fun x y => g x = y) xs l -> l = map g xs.
Proof. induction 1; simpl; congruence. Qed.

(** ** Verification of one ledger *)

Section VerifyFacts.
Variable getTxOut : string -> string -> Z -> Promise (option TxOut).
Variable url : string.

Lemma coinValid_iff c :
  coinValid getTxOut url c = true <->
  exists out, getTxOut url (txid c) (index c) = Fulfilled (Some out) /\
              n out = index c /\ txOutValue out = value c.
Proof.
  unfold coinValid, verifyCoin.
  destruct (getTxOut url (txid c) (index c)) as [[out|]|e].
  - rewrite andb_true_iff, !Z.eqb_eq. split.
    + intros [H1 H2]. exists out. auto.
    + intros (out' & Heq & H1 & H2). inversion Heq; subst. auto.
  - split; [discriminate | intros (out & Heq & _); discriminate].
  - split; [discriminate | intros (out & Heq & _); discriminate].
Qed.

Lemma verifyCoin_fulfilled c v :
  verifyCoin getTxOut url c = Fulfilled v -> coinValid getTxOut url c = v.
Proof. unfold coinValid. now intros ->. Qed.

Lemma verifyCoin_answered c r :
  getTxOut url (txid c) (index c) = Fulfilled r ->
  verifyCoin getTxOut url c = Fulfilled (coinValid getTxOut url c).
Proof.
  unfold coinValid, verifyCoin. intros ->. destruct r; reflexivity.
Qed.

Lemma verifyCoin_rejected c e :
  getTxOut url (txid c) (index c) = Rejected e ->
  verifyCoin getTxOut url c = Rejected e.
Proof. unfold verifyCoin. now intros ->. Qed.

Lemma verifyCoins_inv coins vs :
  verifyCoins getTxOut url coins = Fulfilled vs ->
  vs = map (coinValid getTxOut url) coins.
Proof.
  intros H. apply Promise_all_map_inv in H. apply Forall2_map_eq.
  induction H; constructor; auto using verifyCoin_fulfilled.
Qed.

Lemma sortCoin_filter (f : Coin -> bool) cs bal unsp sp :
  fold_left sortCoin (combine (map f cs) cs) (bal, unsp, sp)
  = (bal + sumValues (filter f cs), unsp ++ filter f cs,
     sp ++ filter (fun c => negb (f c)) cs).
Proof.
  revert bal unsp sp. induction cs as [|c cs IH]; intros bal unsp sp; simpl.
  - now rewrite Z.add_0_r, !app_nil_r.
  - destruct (f c); simpl; rewrite IH, <- !app_assoc; simpl; f_equal; f_equal; lia.
Qed.

Lemma sortCoins_verified ab :
  newAssetBalance
    (Some (sortCoins (map (coinValid getTxOut url) (unspent ab)) (unspent ab)))
  = verified getTxOut url ab.
Proof.
  unfold sortCoins, verified. rewrite sortCoin_filter. simpl.
  now rewrite !newCoin_coinAsLike.
Qed.

Lemma verifyAssetBalance_inv o ab' :
  verifyAssetBalance getTxOut url o = Fulfilled ab' ->
  exists ab, o = Some ab /\ ab' = verified getTxOut url ab.
Proof.
  unfold verifyAssetBalance. destruct o as [ab|]; [|discriminate].
  destruct (verifyCoins getTxOut url (unspent ab)) as [vs|e] eqn:V; [|discriminate].
  intros H. inversion H. exists ab. split; [reflexivity|].
  rewrite (verifyCoins_inv _ _ V). apply sortCoins_verified.
Qed.

Lemma verifyAssetBalance_ok ab :
  (forall c, In c (unspent ab) -> exists r, getTxOut url (txid c) (index c) = Fulfilled r) ->
  verifyAssetBalance getTxOut url (Some ab) = Fulfilled (verified getTxOut url ab).
Proof.
  intros Hq. unfold verifyAssetBalance, verifyCoins.
  rewrite (Promise_all_map_ok _ (coinValid getTxOut url)).
  - now rewrite sortCoins_verified.
  - intros c Hc. destruct (Hq c Hc) as (r & Hr). now apply (verifyCoin_answered c r).
Qed.

Lemma verifyAssetBalance_rejected ab c e :
  In c (unspent ab) -> getTxOut url (txid c) (index c) = Rejected e ->
  exists e', verifyAssetBalance getTxOut url (Some ab) = Rejected e'.
Proof.
  intros Hc Hq. unfold verifyAssetBalance, verifyCoins.
  destruct (Promise_all_map_rejected (verifyCoin getTxOut url) (unspent ab) c e Hc)
    as (e' & ->); [now apply verifyCoin_rejected | now exists e'].
Qed.

Lemma replaceAssets_assign symbols a :
  replaceAssets symbols (map (verifiedAt getTxOut url (assets a)) symbols) (assets a)
  = fold_left (fun o k => JsObj.set o k (verifiedAt getTxOut url (assets a) k))
      symbols (assets a).
Proof.
  unfold replaceAssets. generalize (verifiedAt getTxOut url (assets a)) as g.
  intros g. generalize (assets a) as o.
  induction symbols as [|sym symbols IH]; intros o; simpl; [reflexivity | apply IH].
Qed.

Lemma verifyAssets_inv b b' :
  verifyAssets getTxOut url b = Normal b' ->
  tracked b /\
  b' = with_assets b
         (fold_left (fun o k => JsObj.set o k (verifiedAt getTxOut url (assets b) k))
            (assetSymbols b) (assets b)).
Proof.
  unfold verifyAssets.
  destruct (Promise_all _) as [newBalances|e] eqn:P; [|discriminate].
  intros H. injection H as <-.
  apply Promise_all_map_inv in P.
  assert (Hall : Forall2 (fun k nb => JsObj.get (assets b) k <> None /\
                                      verifiedAt getTxOut url (assets b) k = nb)
                   (assetSymbols b) newBalances).
  { revert P. apply Forall2_impl. intros k nb Hk.
    apply verifyAssetBalance_inv in Hk. destruct Hk as (ab & G & ->).
    unfold verifiedAt. rewrite G. split; [discriminate | reflexivity]. }
  split.
  - intros sym Hin. apply (Forall2_left_in _ (fun k => JsObj.get (assets b) k <> None) _ _ Hall);
      [|assumption].
    now intros x y [Hx _].
  - f_equal. rewrite <- replaceAssets_assign. f_equal.
    apply Forall2_map_eq. revert Hall. apply Forall2_impl. now intros k nb [_ Hk].
Qed.

Lemma verifyAssets_ok b :
  tracked b ->
  (forall sym ab c, In sym (assetSymbols b) -> JsObj.get (assets b) sym = Some ab ->
     In c (unspent ab) -> exists r, getTxOut url (txid c) (index c) = Fulfilled r) ->
  exists b', verifyAssets getTxOut url b = Normal b'.
Proof.
  intros Htr Hq. unfold verifyAssets.
  rewrite (Promise_all_map_ok _ (verifiedAt getTxOut url (assets b))).
  - eexists. reflexivity.
  - intros sym Hin. unfold verifiedAt.
    destruct (JsObj.get (assets b) sym) as [ab|] eqn:G.
    + apply verifyAssetBalance_ok. intros c Hc. now apply (Hq sym ab c).
    + exfalso. now apply (Htr sym).
Qed.

Lemma verifyAssets_replaced b b' sym ab :
  verifyAssets getTxOut url b = Normal b' ->
  In sym (assetSymbols b) -> JsObj.get (assets b) sym = Some ab ->
  JsObj.get (assets b') sym = Some (verified getTxOut url ab).
Proof.
  intros Hv Hin G. apply verifyAssets_inv in Hv. destruct Hv as (_ & ->). simpl.
  rewrite get_assign_all.
  destruct (in_dec string_dec sym (assetSymbols b)); [|contradiction].
  unfold verifiedAt. now rewrite G.
Qed.

End VerifyFacts.

(** ** Verification of a Balance *)

(** C7: verifyAssets calls a coin valid exactly when the node answers with
    an output whose index and value equal the coin's.  The call resolves
    when every listed symbol has a ledger and every query about an unspent
    coin is answered; and whenever it resolves, it returns the Balance with,
    for every listed symbol, a ledger whose [unspent] is the valid coins of
    the former [unspent] in their order, whose balance is their sum, whose
    [spent] is the coins that failed, and whose [unconfirmed] is empty
    whatever it held; the other fields are as before. *)
Theorem verifyAssets_classifies getTxOut url b :
  (forall c,
     coinValid getTxOut url c = true <->
     exists out, getTxOut url (txid c) (index c) = Fulfilled (Some out) /\
                 n out = index c /\ txOutValue out = value c)
  /\
  (tracked b ->
   (forall sym ab c, In sym (assetSymbols b) -> JsObj.get (assets b) sym = Some ab ->
      In c (unspent ab) -> exists r, getTxOut url (txid c) (index c) = Fulfilled r) ->
   exists b', verifyAssets getTxOut url b = Normal b')
  /\
  (forall b',
     verifyAssets getTxOut url b = Normal b' ->
     address b' = address b /\ net b' = net b /\
     assetSymbols b' = assetSymbols b /\
     tokenSymbols b' = tokenSymbols b /\ tokens b' = tokens b /\
     forall sym ab, In sym (assetSymbols b) -> JsObj.get (assets b) sym = Some ab ->
       exists ab',
         JsObj.get (assets b') sym = Some ab' /\
         unspent ab' = filter (coinValid getTxOut url) (unspent ab) /\
         balance ab' = sumValues (filter (coinValid getTxOut url) (unspent ab)) /\
         spent ab' = filter (fun c => negb (coinValid getTxOut url c)) (unspent ab) /\
         unconfirmed ab' = []).
Proof.
  split; [apply coinValid_iff|]. split; [apply verifyAssets_ok|].
  intros b' Hv.
  destruct (verifyAssets_inv _ _ _ _ Hv) as (_ & Hb').
  rewrite Hb' at 1 2 3 4 5. simpl. repeat split; try reflexivity.
  intros sym ab Hin G. exists (verified getTxOut url ab).
  split; [now apply (verifyAssets_replaced getTxOut url b b')|].
  rewrite balance_sum. repeat split.
Qed.

(** C8: when the query for one unspent coin of a listed symbol rejects,
    verifyAssets rejects and the Balance, its asset mapping included, is
    exactly as before the call. *)
Theorem verifyAssets_rejects getTxOut url b sym ab c e :
  In sym (assetSymbols b) ->
  JsObj.get (assets b) sym = Some ab ->
  In c (unspent ab) ->
  getTxOut url (txid c) (index c) = Rejected e ->
  exists e', verifyAssets getTxOut url b = Abrupt e' b.
Proof.
  intros Hin G Hc Hq. unfold verifyAssets.
  destruct (verifyAssetBalance_rejected getTxOut url ab c e Hc Hq) as (e0 & He0).
  destruct (Promise_all_map_rejected
              (fun key => verifyAssetBalance getTxOut url (JsObj.get (assets b) key))
              (assetSymbols b) sym e0 Hin) as (e' & ->).
  - now rewrite G.
  - now exists e'.
Qed.

(** C10: after a verifyAssets that resolved, the [spent] list of every
    listed symbol's ledger is the coins of the former [unspent] that failed
    verification, in their order, and nothing else: a coin is in it exactly
    when it was unspent and failed, so the coins of the former [spent] list
    are not carried over. *)
Theorem verifyAssets_spent getTxOut url b b' sym ab :
  verifyAssets getTxOut url b = Normal b' ->
  In sym (assetSymbols b) ->
  JsObj.get (assets b) sym = Some ab ->
  exists ab',
    JsObj.get (assets b') sym = Some ab' /\
    spent ab' = filter (fun c => negb (coinValid getTxOut url c)) (unspent ab) /\
    forall c, In c (spent ab') <->
              In c (unspent ab) /\ coinValid getTxOut url c = false.
Proof.
  intros Hv Hin G. exists (verified getTxOut url ab).
  split; [now apply (verifyAssets_replaced getTxOut url b b')|].
  split; [reflexivity|].
  intros c. simpl. rewrite filter_In, negb_true_iff. tauto.
Qed.

(** ** The order of Object.keys *)

Lemma insert_index_perm x l : Permutation (JsObj.insert_index x l) (x :: l).
Proof.
  induction l as [|y l IH]; simpl; [reflexivity|].
  destruct (fst x <=? fst y)%N; [reflexivity|].
  etransitivity; [apply perm_skip, IH | apply perm_swap].
Qed.

Lemma sort_index_perm l : Permutation (JsObj.sort_index l) l.
Proof.
  induction l as [|x l IH]; simpl; [reflexivity|].
  etransitivity; [apply insert_index_perm | now apply perm_skip].
Qed.

Lemma insert_index_sorted x l :
  Sorted JsObj.le_index l -> Sorted JsObj.le_index (JsObj.insert_index x l).
Proof.
  induction 1 as [|y l Hs IH Hhd]; simpl.
  - repeat constructor.
  - destruct (fst x <=? fst y)%N eqn:E.
    + apply N.leb_le in E. repeat constructor; assumption.
    + apply N.leb_gt in E. constructor; [assumption|].
      destruct l as [|z l]; simpl in *.
      * constructor. unfold JsObj.le_index. lia.
      * destruct (fst x <=? fst z)%N; constructor; unfold JsObj.le_index.
        -- lia.
        -- now inversion Hhd.
Qed.

Lemma sort_index_sorted l : Sorted JsObj.le_index (JsObj.sort_index l).
Proof.
  induction l as [|x l IH]; simpl; [constructor | now apply insert_index_sorted].
Qed.

Lemma sort_index_fixed l : Sorted JsObj.le_index l -> JsObj.sort_index l = l.
Proof.
  induction 1 as [|x l Hs IH Hhd]; simpl; [reflexivity|].
  rewrite IH. destruct Hhd as [|y l Hxy]; simpl; [reflexivity|].
  unfold JsObj.le_index in Hxy. apply N.leb_le in Hxy. now rewrite Hxy.
Qed.

Lemma index_keys_app ks1 ks2 :
  JsObj.index_keys (ks1 ++ ks2) = JsObj.index_keys ks1 ++ JsObj.index_keys ks2.
Proof.
  induction ks1 as [|k ks1 IH]; simpl; [reflexivity|].
  destruct (JsObj.array_index k); simpl; now rewrite IH.
Qed.

Lemma index_keys_others ks :
  JsObj.index_keys (filter (fun k => negb (JsObj.is_index k)) ks) = [].
Proof.
  induction ks as [|k ks IH]; simpl; [reflexivity|].
  unfold JsObj.is_index at 1. destruct (JsObj.array_index k) eqn:E; simpl; [assumption|].
  now rewrite E.
Qed.

Lemma index_keys_names ks : map snd (JsObj.index_keys ks) = filter JsObj.is_index ks.
Proof.
  induction ks as [|k ks IH]; simpl; [reflexivity|].
  unfold JsObj.is_index at 1. destruct (JsObj.array_index k); simpl; now rewrite IH.
Qed.

Lemma index_keys_sound ks p :
  In p (JsObj.index_keys ks) -> JsObj.array_index (snd p) = Some (fst p).
Proof.
  induction ks as [|k ks IH]; simpl; [contradiction|].
  destruct (JsObj.array_index k) eqn:E; [|assumption].
  intros [<-|Hin]; [assumption | now apply IH].
Qed.

Lemma index_keys_back l :
  (forall p, In p l -> JsObj.array_index (snd p) = Some (fst p)) ->
  JsObj.index_keys (map snd l) = l.
Proof.
  induction l as [|[i k] l IH]; intros Hl; simpl; [reflexivity|].
  pose proof (Hl (i, k) (or_introl eq_refl)) as Hk. simpl in Hk.
  rewrite Hk. rewrite IH; [reflexivity|].
  intros p Hp. apply Hl. now right.
Qed.

Lemma filter_others_indices l :
  (forall p, In p l -> JsObj.array_index (snd p) = Some (fst p)) ->
  filter (fun k => negb (JsObj.is_index k)) (map snd l) = [].
Proof.
  induction l as [|[i k] l IH]; intros Hl; simpl; [reflexivity|].
  pose proof (Hl (i, k) (or_introl eq_refl)) as Hk. simpl in Hk.
  unfold JsObj.is_index at 1. rewrite Hk. simpl.
  apply IH. intros p Hp. apply Hl. now right.
Qed.

Lemma filter_twice {A} (f : A -> bool) l : filter f (filter f l) = filter f l.
Proof.
  induction l as [|x l IH]; simpl; [reflexivity|].
  destruct (f x) eqn:E; simpl; [rewrite E|]; now rewrite IH.
Qed.

Lemma partition_perm {A} (f : A -> bool) l :
  Permutation (filter f l ++ filter (fun x => negb (f x)) l) l.
Proof.
  induction l as [|x l IH]; simpl; [reflexivity|].
  destruct (f x); simpl.
  - now apply perm_skip.
  - etransitivity; [apply Permutation_sym, Permutation_middle | now apply perm_skip].
Qed.

Lemma order_keys_perm ks : Permutation (JsObj.order_keys ks) ks.
Proof.
  unfold JsObj.order_keys.
  etransitivity; [|apply (partition_perm JsObj.is_index)].
  apply Permutation_app_tail. rewrite <- index_keys_names.
  apply Permutation_map, sort_index_perm.
Qed.

Lemma order_keys_In ks k : In k (JsObj.order_keys ks) <-> In k ks.
Proof.
  split; apply Permutation_in; [|apply Permutation_sym]; apply order_keys_perm.
Qed.

Lemma order_keys_NoDup ks : NoDup ks -> NoDup (JsObj.order_keys ks).
Proof. apply Permutation_NoDup, Permutation_sym, order_keys_perm. Qed.

Lemma order_keys_idempotent ks : JsObj.order_keys (JsObj.order_keys ks) = JsObj.order_keys ks.
Proof.
  assert (Hsound : forall p, In p (JsObj.sort_index (JsObj.index_keys ks)) ->
                             JsObj.array_index (snd p) = Some (fst p)).
  { intros p Hp. apply (index_keys_sound ks).
    apply (Permutation_in _ (sort_index_perm (JsObj.index_keys ks))). assumption. }
  unfold JsObj.order_keys at 1.
  unfold JsObj.order_keys at 1 2.
  rewrite index_keys_app, index_keys_others, app_nil_r.
  rewrite index_keys_back by assumption.
  rewrite sort_index_fixed by apply sort_index_sorted.
  rewrite filter_app, filter_others_indices by assumption.
  rewrite filter_twice. reflexivity.
Qed.

Lemma keys_In {V} (o : JsObj.t V) k : In k (JsObj.keys o) <-> JsObj.get o k <> None.
Proof. unfold JsObj.keys. rewrite order_keys_In. symmetry. apply get_in_keys. Qed.


(** ** Export and reconstruction *)

Lemma fold_left_ext_in {A B} (f g : A -> B -> A) l a :
  (forall x acc, In x l -> f acc x = g acc x) ->
  fold_left f l a = fold_left g l a.
Proof.
  revert a. induction l as [|x l IH]; intros a H; simpl; [reflexivity|].
  rewrite (H x a) by now left. apply IH. intros y acc Hy. apply H. now right.
Qed.

Section Rebuild.
Context {V W : Type}.
Variable f : V -> W.
Variable o : JsObj.t V.


Lemma rebuild_get_from ks out k :
  JsObj.get (fold_left (exportStep f o) ks out) k
  = match (if in_dec string_dec k ks then JsObj.get o k else None) with
    | Some v => Some (f v)
    | None => JsObj.get out k
    end.
Proof.
  revert out. induction ks as [|k0 ks IH]; intros out; simpl; [reflexivity|].
  rewrite IH. destruct (in_dec string_dec k ks) as [Hin|Hnin].
  - destruct (string_dec k0 k) as [->|Hne].
    + destruct (JsObj.get o k) eqn:G; [reflexivity|]. unfold exportStep. now rewrite G.
    + destruct (JsObj.get o k) eqn:G; [reflexivity|]. unfold exportStep.
      destruct (JsObj.get o k0); [now apply get_set_neq | reflexivity].
  - destruct (string_dec k0 k) as [->|Hne]; unfold exportStep.
    + destruct (JsObj.get o k) eqn:G; [apply get_set_eq | reflexivity].
    + destruct (JsObj.get o k0); [now apply get_set_neq | reflexivity].
Qed.

Lemma rebuild_keys_from ks out :
  NoDup ks ->
  (forall k, In k ks -> JsObj.get out k = None) ->
  (forall k, In k ks -> JsObj.get o k <> None) ->
  JsObj.insertion_keys (fold_left (exportStep f o) ks out) = JsObj.insertion_keys out ++ ks.
Proof.
  revert out. induction ks as [|k0 ks IH]; intros out Hnd Hfresh Hin; simpl.
  - now rewrite app_nil_r.
  - inversion Hnd as [|? ? Hnotin Hnd']; subst.
    unfold exportStep at 2. destruct (JsObj.get o k0) as [v|] eqn:G.
    2: { exfalso. apply (Hin k0); [now left | assumption]. }
    rewrite IH; auto.
    + rewrite keys_set_absent by (apply Hfresh; now left).
      now rewrite <- app_assoc.
    + intros k Hk. rewrite get_set_neq; [apply Hfresh; now right|].
      intros ->. contradiction.
    + intros k Hk. apply Hin. now right.
Qed.

Lemma rebuild_get k :
  JsObj.get (fold_left (exportStep f o) (JsObj.keys o) JsObj.empty) k = option_map f (JsObj.get o k).
Proof.
  rewrite rebuild_get_from.
  destruct (in_dec string_dec k (JsObj.keys o)) as [Hin|Hnin].
  - destruct (JsObj.get o k); reflexivity.
  - destruct (JsObj.get o k) eqn:G; [|reflexivity].
    exfalso. apply Hnin. apply keys_In. congruence.
Qed.

Lemma rebuild_keys :
  NoDup (JsObj.insertion_keys o) ->
  JsObj.keys (fold_left (exportStep f o) (JsObj.keys o) JsObj.empty) = JsObj.keys o.
Proof.
  intros Hnd. unfold JsObj.keys at 1. rewrite rebuild_keys_from.
  - simpl. apply order_keys_idempotent.
  - now apply order_keys_NoDup.
  - reflexivity.
  - intros k. apply keys_In.
Qed.

End Rebuild.

Lemma exportAssets_get a k :
  JsObj.get (exportAssets a) k = option_map exportAssetBalance (JsObj.get a k).
Proof. apply (rebuild_get exportAssetBalance a). Qed.

Lemma exportAssets_keys a :
  NoDup (JsObj.insertion_keys a) -> JsObj.keys (exportAssets a) = JsObj.keys a.
Proof. apply (rebuild_keys exportAssetBalance a). Qed.

Lemma exportTokens_get t k :
  JsObj.get (exportTokens t) k
  = option_map (fun v => ANumber (toNumber v)) (JsObj.get t k).
Proof. apply (rebuild_get (fun v : Fixed8 => ANumber (toNumber v)) t). Qed.

Lemma exportTokens_keys t :
  NoDup (JsObj.insertion_keys t) -> JsObj.keys (exportTokens t) = JsObj.keys t.
Proof. apply (rebuild_keys (fun v : Fixed8 => ANumber (toNumber v)) t). Qed.

Lemma newCoin_exportCoin l :
  (forall c, In c l -> exactAmount (value c)) -> map newCoin (map exportCoin l) = l.
Proof.
  induction l as [|c l IH]; intros Hl; simpl; [reflexivity|].
  rewrite IH by (intros c' Hc'; apply Hl; now right).
  unfold newCoin, exportCoin. simpl. rewrite (Hl c) by now left. now destruct c.
Qed.

Lemma newAssetBalance_export ab :
  exactLedger ab -> newAssetBalance (Some (exportAssetBalance ab)) = ab.
Proof.
  intros Hex. destruct ab as [u sp uc]. unfold exactLedger, allCoins in Hex.
  simpl in *. rewrite !newCoin_exportCoin; [reflexivity | | |];
    intros c Hc; apply Hex; rewrite !in_app_iff; auto.
Qed.

Lemma fold_addAsset (E : JsObj.t AssetBalanceLike) ks b0 :
  let b1 := fold_left (fun b key => addAsset key (JsObj.get E key) b) ks b0 in
  address b1 = address b0 /\ net b1 = net b0 /\
  tokenSymbols b1 = tokenSymbols b0 /\ tokens b1 = tokens b0 /\
  assetSymbols b1 = assetSymbols b0 ++ map toUpperCase ks /\
  assets b1
  = fold_left (fun o k => JsObj.set o (toUpperCase k) (newAssetBalance (JsObj.get E k)))
      ks (assets b0).
Proof.
  revert b0. induction ks as [|k ks IH]; intros b0; simpl.
  - rewrite app_nil_r. repeat split.
  - destruct (IH (addAsset k (JsObj.get E k) b0)) as (Ha & Hn & Hts & Ht & Hs & Has).
    simpl in *. rewrite Ha, Hn, Hts, Ht, Hs, Has, <- app_assoc. repeat split.
Qed.

Lemma fold_addToken (T : JsObj.t Amount) ks b0 :
  let b1 := fold_left (fun b key => addToken key (JsObj.get T key) b) ks b0 in
  address b1 = address b0 /\ net b1 = net b0 /\
  assetSymbols b1 = assetSymbols b0 /\ assets b1 = assets b0 /\
  tokenSymbols b1 = tokenSymbols b0 ++ map toUpperCase ks /\
  tokens b1
  = fold_left
      (fun o k => JsObj.set o (toUpperCase k)
                    (match JsObj.get T k with Some a => newFixed8 a | None => 0 end))
      ks (tokens b0).
Proof.
  revert b0. induction ks as [|k ks IH]; intros b0; simpl.
  - rewrite app_nil_r. repeat split.
  - destruct (IH (addToken k (JsObj.get T k) b0)) as (Ha & Hn & Hs & Has & Hts & Ht).
    simpl in *. rewrite Ha, Hn, Hs, Has, Hts, Ht, <- app_assoc. repeat split.
Qed.

Lemma map_upper_fixed ks :
  (forall k, In k ks -> toUpperCase k = k) -> map toUpperCase ks = ks.
Proof.
  induction ks as [|k ks IH]; intros H; simpl; [reflexivity|].
  rewrite (H k) by now left. rewrite IH; [reflexivity|].
  intros k' Hk'. apply H. now right.
Qed.

Lemma or_default_same s d : s <> "" -> or_default (Some s) d = s.
Proof.
  intros Hs. unfold or_default. destruct (String.eqb s "") eqn:E; [|reflexivity].
  apply String.eqb_eq in E. contradiction.
Qed.

Lemma or_default_empty s : or_default (Some s) "" = s.
Proof.
  unfold or_default. destruct (String.eqb s "") eqn:E; [|reflexivity].
  apply String.eqb_eq in E. now subst.
Qed.

Lemma roundtrip_assets a k :
  upperKeys a -> ledgersAll exactLedger a ->
  JsObj.get
    (fold_left
       (fun o k' => JsObj.set o (toUpperCase k')
                      (newAssetBalance (JsObj.get (exportAssets a) k')))
       (JsObj.keys a) JsObj.empty) k
  = JsObj.get a k.
Proof.
  intros [Hnd Hup] Hex.
  rewrite (fold_left_ext_in _
             (fun o k' => JsObj.set o k' (newAssetBalance (JsObj.get (exportAssets a) k')))).
  2: { intros k' acc Hk'. rewrite Hup; [reflexivity|].
       apply get_in_keys. now apply keys_In. }
  rewrite (get_assign_all
             (fun k' => newAssetBalance (JsObj.get (exportAssets a) k'))).
  destruct (in_dec string_dec k (JsObj.keys a)) as [Hin|Hnin].
  - rewrite exportAssets_get. apply keys_In in Hin.
    destruct (JsObj.get a k) as [ab|] eqn:G; [|congruence].
    cbn [option_map]. rewrite newAssetBalance_export; [reflexivity | now apply (Hex k)].
  - simpl. destruct (JsObj.get a k) eqn:G; [|reflexivity].
    exfalso. apply Hnin. apply keys_In. congruence.
Qed.

Lemma roundtrip_tokens t k :
  upperKeys t ->
  (forall k' v, JsObj.get t k' = Some v -> exactAmount v) ->
  JsObj.get
    (fold_left
       (fun o k' => JsObj.set o (toUpperCase k')
                      (match JsObj.get (exportTokens t) k' with
                       | Some a => newFixed8 a
                       | None => 0
                       end))
       (JsObj.keys t) JsObj.empty) k
  = JsObj.get t k.
Proof.
  intros [Hnd Hup] Hex.
  rewrite (fold_left_ext_in _
             (fun o k' => JsObj.set o k'
                (match JsObj.get (exportTokens t) k' with
                 | Some a => newFixed8 a
                 | None => 0
                 end))).
  2: { intros k' acc Hk'. rewrite Hup; [reflexivity|].
       apply get_in_keys. now apply keys_In. }
  rewrite (get_assign_all
             (fun k' => match JsObj.get (exportTokens t) k' with
                        | Some a => newFixed8 a
                        | None => 0
                        end)).
  destruct (in_dec string_dec k (JsObj.keys t)) as [Hin|Hnin].
  - rewrite exportTokens_get. apply keys_In in Hin.
    destruct (JsObj.get t k) as [v|] eqn:G; [|congruence].
    simpl. f_equal. now apply (Hex k).
  - simpl. destruct (JsObj.get t k) eqn:G; [|reflexivity].
    exfalso. apply Hnin. apply keys_In. congruence.
Qed.

(** C9, as the code has it: take a Balance whose mappings hold each key
    once and upper-cased, whose network name is not empty, and whose coin
    values and token amounts are exact as JS numbers (export writes every
    amount with [toNumber] and the constructor reads it back with
    [new Fixed8]).  The Balance constructed from its export has the same
    address and network, the same ledger under every asset symbol (same
    coin lists, hence same balance) and the same amount under every token
    symbol.  The constructor does not read the exported symbol lists: it
    rebuilds them from the keys of the two mappings, so [assetSymbols] and
    [tokenSymbols] come back as those keys in Object.keys order, each once,
    and equal the original lists exactly when the originals were those key
    lists. *)
Theorem export_roundtrip b :
  wellFormed b ->
  exactBalance b ->
  let b' := newBalance (export b) in
  address b' = address b /\ net b' = net b /\
  (forall k, JsObj.get (assets b') k = JsObj.get (assets b) k) /\
  (forall k, JsObj.get (tokens b') k = JsObj.get (tokens b) k) /\
  assetSymbols b' = JsObj.keys (assets b) /\
  tokenSymbols b' = JsObj.keys (tokens b) /\
  (assetSymbols b' = assetSymbols b <-> assetSymbols b = JsObj.keys (assets b)) /\
  (tokenSymbols b' = tokenSymbols b <-> tokenSymbols b = JsObj.keys (tokens b)).
Proof.
  intros (Hnet & Ha & Ht) (Hexa & Hext). unfold newBalance, export.
  cbn [like_address like_net like_assets like_tokens].
  rewrite or_default_empty, or_default_same by assumption.
  rewrite exportAssets_keys by apply Ha. rewrite exportTokens_keys by apply Ht.
  set (b0 := mkBalance (address b) (net b) [] JsObj.empty [] JsObj.empty).
  destruct (fold_addAsset (exportAssets (assets b)) (JsObj.keys (assets b)) b0)
    as (A1 & A2 & A3 & A4 & A5 & A6).
  set (b1 := fold_left (fun b2 key => addAsset key (JsObj.get (exportAssets (assets b)) key) b2)
               (JsObj.keys (assets b)) b0) in *.
  destruct (fold_addToken (exportTokens (tokens b)) (JsObj.keys (tokens b)) b1)
    as (T1 & T2 & T3 & T4 & T5 & T6).
  cbv zeta in *.
  assert (Hsyms : map toUpperCase (JsObj.keys (assets b)) = JsObj.keys (assets b)).
  { apply map_upper_fixed. intros k Hk. apply Ha.
    apply get_in_keys. now apply keys_In. }
  assert (Htoks : map toUpperCase (JsObj.keys (tokens b)) = JsObj.keys (tokens b)).
  { apply map_upper_fixed. intros k Hk. apply Ht.
    apply get_in_keys. now apply keys_In. }
  rewrite T1, T2, T3, T4, T5, T6, A1, A2, A3, A4, A5, A6, Hsyms, Htoks.
  subst b0. simpl.
  repeat split; try congruence.
  - intros k. now apply roundtrip_assets.
  - intros k. now apply roundtrip_tokens.
Qed.

(** ** What every reachable Balance satisfies *)

Lemma get_set_keeps {V} (o : JsObj.t V) k v k' :
  JsObj.get o k' <> None -> JsObj.get (JsObj.set o k v) k' <> None.
Proof.
  rewrite get_set. destruct (String.eqb k k'); [discriminate | auto].
Qed.

Lemma upperKeys_set {V} (o : JsObj.t V) k v :
  toUpperCase k = k -> upperKeys o -> upperKeys (JsObj.set o k v).
Proof.
  intros Hk [Hnd Hup]. destruct (JsObj.get o k) eqn:G.
  - unfold upperKeys. rewrite keys_set_present; [now split | congruence].
  - unfold upperKeys. rewrite keys_set_absent by assumption. split.
    + apply NoDup_app; [assumption | repeat constructor; intros [] |].
      intros x Hx [<-|[]]. now apply get_none_keys in G.
    + intros x Hx. apply in_app_or in Hx. destruct Hx as [Hx|[<-|[]]]; auto.
Qed.

Lemma upperKeys_set_present {V} (o : JsObj.t V) k v :
  JsObj.get o k <> None -> upperKeys o -> upperKeys (JsObj.set o k v).
Proof.
  intros G H. unfold upperKeys. now rewrite keys_set_present.
Qed.

Lemma sound_same_keys b b' :
  assetSymbols b' = assetSymbols b ->
  JsObj.insertion_keys (assets b') = JsObj.insertion_keys (assets b) ->
  net b' = net b -> tokens b' = tokens b ->
  sound b -> sound b'.
Proof.
  intros Hs Hk Hn Ht (Htr & Hnet & Ha & Htok). split; [|split; [|split]].
  - intros sym Hin. apply get_in_keys. rewrite Hk.
    apply get_in_keys. apply Htr. now rewrite <- Hs.
  - now rewrite Hn.
  - unfold upperKeys. now rewrite Hk.
  - now rewrite Ht.
Qed.

Lemma addAsset_sound sym l b : sound b -> sound (addAsset sym l b).
Proof using JsNumber ofNumber ofString toUpperCase toUpperCase_idempotent.
  intros (Htr & Hnet & Ha & Htok). split; [|split; [|split]]; simpl; try assumption.
  - intros s Hin. simpl in *. apply in_app_or in Hin. destruct Hin as [Hin|[<-|[]]].
    + apply get_set_keeps. now apply Htr.
    + rewrite get_set_eq. discriminate.
  - apply upperKeys_set; [apply toUpperCase_idempotent | assumption].
Qed.

Lemma addToken_sound sym v b : sound b -> sound (addToken sym v b).
Proof using JsNumber ofNumber ofString toUpperCase toUpperCase_idempotent.
  intros (Htr & Hnet & Ha & Htok). split; [|split; [|split]]; simpl; try assumption.
  apply upperKeys_set; [apply toUpperCase_idempotent | assumption].
Qed.

Lemma newBalance_sound bal : sound (newBalance bal).
Proof using JsNumber ofNumber ofString toUpperCase toUpperCase_idempotent.
  unfold newBalance.
  set (b0 := mkBalance _ _ [] JsObj.empty [] JsObj.empty).
  assert (H0 : sound b0).
  { split; [intros sym [] | split; [|split; split; simpl; try constructor; intros k []]].
    simpl. unfold or_default. destruct (like_net bal) as [s|]; [|discriminate].
    destruct (String.eqb s "") eqn:E; [discriminate|]. now apply String.eqb_neq in E. }
  assert (Hfold1 : forall E ks b, sound b ->
            sound (fold_left (fun b key => addAsset key (JsObj.get E key) b) ks b)).
  { intros E ks. induction ks as [|k ks IH]; intros b Hb; simpl; [assumption|].
    apply IH. now apply addAsset_sound. }
  assert (Hfold2 : forall (T : JsObj.t Amount) ks b, sound b ->
            sound (fold_left (fun b key => addToken key (JsObj.get T key) b) ks b)).
  { intros T ks. induction ks as [|k ks IH]; intros b Hb; simpl; [assumption|].
    apply IH. now apply addToken_sound. }
  destruct (like_tokens bal); [apply Hfold2|]; destruct (like_assets bal); auto.
Qed.

Lemma spendInput_insertion_keys input symbols a :
  JsObj.insertion_keys (store (spendInput input symbols a)) = JsObj.insertion_keys a.
Proof.
  induction symbols as [|sym symbols IH]; simpl; [reflexivity|].
  destruct (JsObj.get a sym) as [ab|] eqn:G; [|reflexivity].
  destruct (findIndex _ (unspent ab)); [|assumption].
  simpl. apply keys_set_present. congruence.
Qed.

Lemma spendCoins_sound ins b : sound b -> sound (store (spendCoins ins b)).
Proof.
  revert b. induction ins as [|input ins IH]; intros b Hb; simpl; [assumption|].
  pose proof (spendInput_insertion_keys input (assetSymbols b) (assets b)) as Hk.
  destruct (spendInput input (assetSymbols b) (assets b)) as [a'|e a']; simpl in Hk.
  - apply IH. revert Hb. now apply sound_same_keys.
  - simpl. revert Hb. now apply sound_same_keys.
Qed.

Lemma addCoins_sound (ASSETS : string -> option string) confirmed h outs :
  forall i b, sound b -> sound (store (addCoins ASSETS confirmed h i outs b)).
Proof using JsNumber ofNumber ofString toUpperCase toUpperCase_idempotent.
  induction outs as [|output outs IH]; intros i b Hb; [assumption|].
  cbn [addCoins].
  destruct (JsObj.get (assets b)
              match ASSETS (assetId output) with Some s => s | None => "undefined" end)
    as [ab|] eqn:G.
  - apply IH. revert Hb. apply sound_same_keys; try reflexivity.
    simpl. apply keys_set_present. congruence.
  - destruct (ASSETS (assetId output)); simpl; [now apply addAsset_sound | assumption].
Qed.

Lemma applyTx_sound (ASSETS : string -> option string) tx confirmed b :
  sound b -> sound (store (applyTx ASSETS tx confirmed b)).
Proof using JsNumber ofNumber ofString toUpperCase toUpperCase_idempotent.
  intros Hb. unfold applyTx.
  pose proof (spendCoins_sound (inputs tx) b Hb) as Hs.
  destruct (spendCoins (inputs tx) b) as [b'|e b']; simpl in *; [|assumption].
  now apply addCoins_sound.
Qed.

Lemma confirm_sound b : sound b -> sound (store (confirm b)).
Proof.
  intros Hb. unfold confirm.
  destruct (confirmLoop_spec (assetSymbols b) (assets b) (proj1 Hb))
    as (a' & -> & Hk & _).
  simpl. revert Hb. now apply sound_same_keys.
Qed.

Lemma assign_present_keys {V} (g : string -> V) ks (o : JsObj.t V) :
  (forall k, In k ks -> JsObj.get o k <> None) ->
  JsObj.insertion_keys (fold_left (fun o' k => JsObj.set o' k (g k)) ks o)
  = JsObj.insertion_keys o.
Proof.
  revert o. induction ks as [|k ks IH]; intros o Hin; simpl; [reflexivity|].
  rewrite IH.
  - apply keys_set_present. apply Hin. now left.
  - intros k' Hk'. apply get_set_keeps. apply Hin. now right.
Qed.

Lemma verifyAssets_sound getTxOut url b :
  sound b -> sound (store (verifyAssets getTxOut url b)).
Proof.
  intros Hb. destruct (verifyAssets getTxOut url b) as [b'|e b'] eqn:Hv.
  - destruct (verifyAssets_inv _ _ _ _ Hv) as (Htr & ->). simpl.
    revert Hb. apply sound_same_keys; try reflexivity.
    simpl. now apply assign_present_keys.
  - unfold verifyAssets in Hv. destruct (Promise_all _); [discriminate|].
    inversion Hv. now subst.
Qed.

(** Every state reachable from a constructed Balance keeps the data-model
    invariant: listed symbols have ledgers, keys are upper-cased and stored
    once, the network name is not empty. *)
Lemma runOps_sound (ASSETS : string -> option string) ops bal :
  sound (runOps ASSETS ops (newBalance bal)).
Proof using JsNumber ofNumber ofString toUpperCase toUpperCase_idempotent.
  unfold runOps. generalize (newBalance_sound bal). generalize (newBalance bal).
  induction ops as [|op ops IH]; intros b Hb; simpl; [assumption|].
  apply IH. destruct op; simpl.
  - now apply addAsset_sound.
  - now apply applyTx_sound.
  - now apply confirm_sound.
  - now apply verifyAssets_sound.
Qed.

(** The part of C2 the code does keep: applyTx returns normally when every
    output is of a registered asset the Balance tracks, whatever the inputs
    refer to; confirm returns normally in every reachable state. *)
Lemma addCoins_returns (ASSETS : string -> option string) confirmed h outs :
  forall i b,
    (forall out, In out outs ->
       exists s, ASSETS (assetId out) = Some s /\ JsObj.get (assets b) s <> None) ->
    returns (addCoins ASSETS confirmed h i outs b) = true.
Proof.
  induction outs as [|output outs IH]; intros i b Hreg; [reflexivity|].
  cbn [addCoins]. destruct (Hreg output (or_introl eq_refl)) as (s & -> & Hs).
  destruct (JsObj.get (assets b) s) as [ab|] eqn:G; [|congruence].
  apply IH. intros out Hout. destruct (Hreg out (or_intror Hout)) as (s' & Hs' & Hg).
  exists s'. split; [assumption|]. simpl. now apply get_set_keeps.
Qed.

Lemma applyTx_returns (ASSETS : string -> option string) tx confirmed b :
  tracked b ->
  (forall out, In out (outputs tx) ->
     exists s, ASSETS (assetId out) = Some s /\ JsObj.get (assets b) s <> None) ->
  returns (applyTx ASSETS tx confirmed b) = true.
Proof.
  intros Htr Hreg. unfold applyTx.
  destruct (spendCoins_keys (inputs tx) b Htr) as (b' & -> & _ & _ & _ & _ & _ & Hk).
  simpl. apply addCoins_returns. intros out Hout.
  destruct (Hreg out Hout) as (s & Hs & Hg). exists s. split; [assumption|].
  intros Hnone. apply Hg. now apply Hk.
Qed.

Lemma confirm_returns (ASSETS : string -> option string) ops bal :
  returns (confirm (runOps ASSETS ops (newBalance bal))) = true.
Proof using JsNumber ofNumber ofString toUpperCase toUpperCase_idempotent.
  unfold confirm.
  destruct (confirmLoop_spec _ _ (proj1 (runOps_sound ASSETS ops bal))) as (a' & -> & _).
  reflexivity.
Qed.

(** ** Further properties of addAsset and addToken *)

Lemma set_set_same {V} (o : JsObj.t V) k v v' :
  JsObj.set (JsObj.set o k v) k v' = JsObj.set o k v'.
Proof.
  induction o as [|[k0 v0] o IH]; simpl.
  - now rewrite String.eqb_refl.
  - destruct (String.eqb k0 k) eqn:E; simpl; rewrite E; [reflexivity | now rewrite IH].
Qed.

(** X1: addAsset files a symbol under its upper-cased form.  Adding two
    symbols with the same upper-case form lists that form twice but keeps
    one ledger, the one of the second call: the ledger of the first call is
    replaced, and every other ledger is untouched. *)
Theorem addAsset_twice s1 s2 l1 l2 b :
  toUpperCase s1 = toUpperCase s2 ->
  let b' := addAsset s2 l2 (addAsset s1 l1 b) in
  assetSymbols b' = assetSymbols b ++ [toUpperCase s1; toUpperCase s1] /\
  assets b' = JsObj.set (assets b) (toUpperCase s1) (newAssetBalance l2) /\
  JsObj.get (assets b') (toUpperCase s1) = Some (newAssetBalance l2) /\
  (forall k, k <> toUpperCase s1 -> JsObj.get (assets b') k = JsObj.get (assets b) k).
Proof.
  intros Hup. simpl. rewrite <- Hup, set_set_same, <- app_assoc. repeat split.
  - apply get_set_eq.
  - intros k Hk. apply get_set_neq. congruence.
Qed.

(** X2: addToken files a token under its upper-cased symbol and stores
    [new Fixed8] of the amount it is given (0 when none is given).  Adding
    two symbols with the same upper-case form lists the symbol twice and
    keeps the amount of the second call; other tokens and all assets are
    untouched. *)
Theorem addToken_twice s1 s2 v1 v2 b :
  toUpperCase s1 = toUpperCase s2 ->
  let b' := addToken s2 v2 (addToken s1 v1 b) in
  let amount := match v2 with Some a => newFixed8 a | None => 0 end in
  tokenSymbols b' = tokenSymbols b ++ [toUpperCase s1; toUpperCase s1] /\
  tokens b' = JsObj.set (tokens b) (toUpperCase s1) amount /\
  JsObj.get (tokens b') (toUpperCase s1) = Some amount /\
  (forall k, k <> toUpperCase s1 -> JsObj.get (tokens b') k = JsObj.get (tokens b) k) /\
  assetSymbols b' = assetSymbols b /\ assets b' = assets b.
Proof.
  intros Hup. simpl. rewrite <- Hup, set_set_same, <- app_assoc. repeat split.
  - apply get_set_eq.
  - intros k Hk. apply get_set_neq. congruence.
Qed.

(** ** What no operation on assets does *)

Lemma spendCoins_frame ins b :
  let b' := store (spendCoins ins b) in
  address b' = address b /\ net b' = net b /\
  assetSymbols b' = assetSymbols b /\
  tokenSymbols b' = tokenSymbols b /\ tokens b' = tokens b /\
  JsObj.insertion_keys (assets b') = JsObj.insertion_keys (assets b).
Proof.
  revert b. induction ins as [|input ins IH]; intros b; simpl; [repeat split|].
  pose proof (spendInput_insertion_keys input (assetSymbols b) (assets b)) as Hk.
  destruct (spendInput input (assetSymbols b) (assets b)) as [a'|e a']; simpl in Hk.
  - destruct (IH (with_assets b a')) as (H1 & H2 & H3 & H4 & H5 & H6). simpl in *.
    rewrite <- Hk. repeat split; assumption.
  - simpl. repeat split. assumption.
Qed.

Lemma addCoins_frame (ASSETS : string -> option string) confirmed h outs :
  forall i b,
    let b' := store (addCoins ASSETS confirmed h i outs b) in
    address b' = address b /\ net b' = net b /\
    tokenSymbols b' = tokenSymbols b /\ tokens b' = tokens b /\
    (exists more, assetSymbols b' = assetSymbols b ++ more) /\
    (forall k, JsObj.get (assets b) k <> None -> JsObj.get (assets b') k <> None).
Proof.
  induction outs as [|output outs IH]; intros i b.
  - simpl. repeat split; auto. exists []. now rewrite app_nil_r.
  - cbn [addCoins].
    destruct (JsObj.get (assets b)
                match ASSETS (assetId output) with Some s => s | None => "undefined" end)
      as [ab|] eqn:G.
    + match goal with |- context [addCoins ASSETS confirmed h (i + 1) outs ?b1] =>
        destruct (IH (i + 1) b1) as (H1 & H2 & H3 & H4 & H5 & H6) end.
      simpl in *. repeat split; try assumption.
      intros k Hk. apply H6. now apply get_set_keeps.
    + destruct (ASSETS (assetId output)); simpl.
      * repeat split; auto; [now eexists | intros k Hk; now apply get_set_keeps].
      * repeat split; auto. exists []. now rewrite app_nil_r.
Qed.

Lemma confirmLoop_insertion_keys symbols a :
  JsObj.insertion_keys (store (confirmLoop symbols a)) = JsObj.insertion_keys a.
Proof.
  revert a. induction symbols as [|sym symbols IH]; intros a; simpl; [reflexivity|].
  destruct (JsObj.get a sym) as [ab|] eqn:G; [|reflexivity].
  rewrite IH. apply keys_set_present. congruence.
Qed.

Lemma same_keys_kept {V} (o o' : JsObj.t V) k :
  JsObj.insertion_keys o' = JsObj.insertion_keys o ->
  JsObj.get o k <> None -> JsObj.get o' k <> None.
Proof.
  intros Hk H. apply get_in_keys. rewrite Hk.
  now apply get_in_keys.
Qed.

Lemma runOp_frame (ASSETS : string -> option string) op b :
  let b' := runOp ASSETS op b in
  address b' = address b /\ net b' = net b /\
  tokenSymbols b' = tokenSymbols b /\ tokens b' = tokens b /\
  (exists more, assetSymbols b' = assetSymbols b ++ more) /\
  (forall k, JsObj.get (assets b) k <> None -> JsObj.get (assets b') k <> None).
Proof.
  destruct op as [sym l|tx confirmed| |getTxOut url]; simpl.
  - repeat split; [now eexists | intros k Hk; now apply get_set_keeps].
  - unfold applyTx.
    destruct (spendCoins_frame (inputs tx) b) as (H1 & H2 & H3 & H4 & H5 & H6).
    destruct (spendCoins (inputs tx) b) as [b1|e b1]; simpl in *.
    + destruct (addCoins_frame ASSETS confirmed (hash tx) (outputs tx) 0 b1)
        as (A1 & A2 & A3 & A4 & (more & A5) & A6).
      rewrite A1, A2, A3, A4, A5, H1, H2, H3, H4, H5. repeat split; [now eexists|].
      intros k Hk. apply A6. now apply (same_keys_kept (assets b)).
    + repeat split; auto; [exists []; now rewrite app_nil_r|].
      intros k. now apply same_keys_kept.
  - unfold confirm.
    pose proof (confirmLoop_insertion_keys (assetSymbols b) (assets b)) as Hk.
    destruct (confirmLoop (assetSymbols b) (assets b)) as [a'|e a']; simpl in *;
      (repeat split; [exists []; now rewrite app_nil_r | intros k; now apply same_keys_kept]).
  - destruct (verifyAssets getTxOut url b) as [b'|e b'] eqn:Hv; simpl.
    + destruct (verifyAssets_inv _ _ _ _ Hv) as (Htr & ->). simpl.
      repeat split; [exists []; now rewrite app_nil_r|].
      intros k. apply same_keys_kept. now apply assign_present_keys.
    + unfold verifyAssets in Hv. destruct (Promise_all _); [discriminate|].
      inversion Hv; subst. repeat split; auto. exists []. now rewrite app_nil_r.
Qed.

(** X3: addAsset, applyTx, confirm and verifyAssets, in any order and
    whether they return, throw or reject, never change the address, the
    network, the token symbols or the token amounts of a Balance. *)
Theorem runOps_keep_tokens (ASSETS : string -> option string) ops b :
  address (runOps ASSETS ops b) = address b /\
  net (runOps ASSETS ops b) = net b /\
  tokenSymbols (runOps ASSETS ops b) = tokenSymbols b /\
  tokens (runOps ASSETS ops b) = tokens b.
Proof.
  unfold runOps. revert b. induction ops as [|op ops IH]; intros b; simpl; [repeat split|].
  destruct (IH (runOp ASSETS op b)) as (H1 & H2 & H3 & H4).
  destruct (runOp_frame ASSETS op b) as (F1 & F2 & F3 & F4 & _).
  rewrite H1, H2, H3, H4. auto.
Qed.

(** X4: no operation forgets an asset.  After any sequence of addAsset,
    applyTx, confirm and verifyAssets the former symbol list is a prefix of
    the new one, and every symbol that had a ledger still has one. *)
Theorem runOps_keep_assets (ASSETS : string -> option string) ops b :
  (exists more, assetSymbols (runOps ASSETS ops b) = assetSymbols b ++ more) /\
  (forall k, JsObj.get (assets b) k <> None ->
             JsObj.get (assets (runOps ASSETS ops b)) k <> None).
Proof.
  unfold runOps. revert b. induction ops as [|op ops IH]; intros b; simpl.
  - split; [exists []; now rewrite app_nil_r | auto].
  - destruct (IH (runOp ASSETS op b)) as ((more & H1) & H2).
    destruct (runOp_frame ASSETS op b) as (_ & _ & _ & _ & (more0 & F5) & F6).
    split.
    + exists (more0 ++ more). now rewrite H1, F5, <- app_assoc.
    + intros k Hk. apply H2. now apply F6.
Qed.

(** ** Reachable states *)

Lemma listed_same_keys b b' :
  (exists more, assetSymbols b' = assetSymbols b ++ more) ->
  JsObj.insertion_keys (assets b') = JsObj.insertion_keys (assets b) ->
  listedKeys b -> listedKeys b'.
Proof.
  intros (more & Hs) Hk Hl k Hget. rewrite Hs. apply in_or_app. left.
  apply Hl. apply get_in_keys. rewrite <- Hk.
  now apply get_in_keys.
Qed.

Lemma addAsset_listed sym l b : listedKeys b -> listedKeys (addAsset sym l b).
Proof.
  intros Hl k. simpl. rewrite get_set.
  destruct (String.eqb (toUpperCase sym) k) eqn:E; intros Hk; apply in_or_app.
  - apply String.eqb_eq in E. right. now left.
  - left. now apply Hl.
Qed.

Lemma addCoins_listed (ASSETS : string -> option string) confirmed h outs :
  forall i b, listedKeys b -> listedKeys (store (addCoins ASSETS confirmed h i outs b)).
Proof.
  induction outs as [|output outs IH]; intros i b Hb; [assumption|].
  cbn [addCoins].
  destruct (JsObj.get (assets b)
              match ASSETS (assetId output) with Some s => s | None => "undefined" end)
    as [ab|] eqn:G.
  - apply IH. revert Hb. apply listed_same_keys.
    + exists []. simpl. now rewrite app_nil_r.
    + simpl. apply keys_set_present. congruence.
  - destruct (ASSETS (assetId output)); simpl; [now apply addAsset_listed | assumption].
Qed.

Lemma runOp_listed (ASSETS : string -> option string) op b :
  listedKeys b -> listedKeys (runOp ASSETS op b).
Proof.
  intros Hb. destruct op as [sym l|tx confirmed| |getTxOut url]; simpl.
  - now apply addAsset_listed.
  - unfold applyTx.
    destruct (spendCoins_frame (inputs tx) b) as (_ & _ & H3 & _ & _ & H6).
    assert (H1 : listedKeys (store (spendCoins (inputs tx) b))).
    { revert Hb. apply listed_same_keys; [|assumption].
      exists []. now rewrite app_nil_r. }
    destruct (spendCoins (inputs tx) b) as [b1|e b1]; simpl in *; [|assumption].
    now apply addCoins_listed.
  - unfold confirm.
    pose proof (confirmLoop_insertion_keys (assetSymbols b) (assets b)) as Hk.
    destruct (confirmLoop (assetSymbols b) (assets b)) as [a'|e a']; simpl in *;
      (revert Hb; apply listed_same_keys; [exists []; simpl; now rewrite app_nil_r | assumption]).
  - destruct (verifyAssets getTxOut url b) as [b'|e b'] eqn:Hv; simpl.
    + destruct (verifyAssets_inv _ _ _ _ Hv) as (Htr & ->).
      revert Hb. apply listed_same_keys; [exists []; simpl; now rewrite app_nil_r|].
      simpl. now apply assign_present_keys.
    + unfold verifyAssets in Hv. destruct (Promise_all _); [discriminate|].
      inversion Hv. now subst.
Qed.

Lemma newBalance_listed bal : listedKeys (newBalance bal).
Proof.
  unfold newBalance.
  set (b0 := mkBalance _ _ [] JsObj.empty [] JsObj.empty).
  assert (H0 : listedKeys b0) by (intros k Hk; simpl in Hk; congruence).
  assert (Hfold1 : forall E ks b, listedKeys b ->
            listedKeys (fold_left (fun b key => addAsset key (JsObj.get E key) b) ks b)).
  { intros E ks. induction ks as [|k ks IH]; intros b Hb; simpl; [assumption|].
    apply IH. now apply addAsset_listed. }
  assert (Hfold2 : forall (T : JsObj.t Amount) ks b, listedKeys b ->
            listedKeys (fold_left (fun b key => addToken key (JsObj.get T key) b) ks b)).
  { intros T ks. induction ks as [|k ks IH]; intros b Hb; simpl; [assumption|].
    apply IH. exact Hb. }
  destruct (like_tokens bal); [apply Hfold2|]; destruct (like_assets bal); auto.
Qed.

Lemma runOps_listed (ASSETS : string -> option string) ops bal :
  listedKeys (runOps ASSETS ops (newBalance bal)).
Proof.
  unfold runOps. generalize (newBalance_listed bal). generalize (newBalance bal).
  induction ops as [|op ops IH]; intros b Hb; simpl; [assumption|].
  apply IH. now apply runOp_listed.
Qed.

(** X5: the invariant of the data model.  In every state a constructed
    Balance reaches through addAsset, applyTx, confirm and verifyAssets
    (failing calls included) the listed symbols are exactly the symbols that
    have a ledger, every key of the asset and token mappings is upper-cased,
    and the network name is not empty. *)
Theorem reachable_invariant (ASSETS : string -> option string) ops bal :
  let b := runOps ASSETS ops (newBalance bal) in
  (forall sym, In sym (assetSymbols b) <-> JsObj.get (assets b) sym <> None) /\
  (forall k, JsObj.get (assets b) k <> None -> toUpperCase k = k) /\
  (forall k, JsObj.get (tokens b) k <> None -> toUpperCase k = k) /\
  net b <> "".
Proof using JsNumber ofNumber ofString toUpperCase toUpperCase_idempotent.
  destruct (runOps_sound ASSETS ops bal) as (Htr & Hnet & (_ & Ha) & (_ & Ht)).
  pose proof (runOps_listed ASSETS ops bal) as Hl.
  cbv zeta. repeat split.
  - apply Htr.
  - apply Hl.
  - intros k Hk. apply Ha. now apply get_in_keys.
  - intros k Hk. apply Ht. now apply get_in_keys.
  - assumption.
Qed.

(** ** The receive phase on tracked and on unknown assets *)

Lemma sound_no_undefined b : sound b -> JsObj.get (assets b) "undefined" = None.
Proof using toUpperCase toUpperCase_undefined.
  intros (_ & _ & (_ & Hup) & _).
  destruct (JsObj.get (assets b) "undefined") eqn:G; [|reflexivity].
  assert (Hin : In "undefined" (JsObj.insertion_keys (assets b)))
    by (apply get_in_keys; congruence).
  apply Hup in Hin. exfalso. now apply toUpperCase_undefined.
Qed.

(** X6: an output of an asset the registry does not list makes applyTx
    throw.  On a Balance that satisfies the data-model invariant the spend
    phase has run by then and nothing of the receive phase has: the state
    left is the one after the spend phase, whatever the other outputs are
    and whatever the confirmed flag. *)
Theorem applyTx_unknown_asset (ASSETS : string -> option string)
    b tx confirmed out outs :
  sound b ->
  outputs tx = out :: outs ->
  ASSETS (assetId out) = None ->
  exists b1,
    spendCoins (inputs tx) b = Normal b1 /\
    applyTx ASSETS tx confirmed b = Abrupt TypeError b1.
Proof using JsNumber ofNumber ofString toUpperCase toUpperCase_undefined.
  intros Hb Hout Hreg. unfold applyTx.
  pose proof (spendCoins_sound (inputs tx) b Hb) as Hs.
  destruct (spendCoins_keys (inputs tx) b (proj1 Hb)) as (b1 & Heq & _).
  rewrite Heq in *. simpl in Hs. exists b1. split; [reflexivity|].
  simpl. rewrite Hout. cbn [addCoins]. rewrite Hreg.
  now rewrite (sound_no_undefined b1 Hs).
Qed.

Lemma ledgersAll_of_Forall (P : AssetBalance -> Prop) (a : JsObj.t AssetBalance) :
  Forall (fun p => P (snd p)) a -> ledgersAll P a.
Proof.
  induction 1 as [|[k0 v0] a Hv _ IH]; intros k ab G; simpl in G; [discriminate|].
  destruct (String.eqb k0 k); [inversion G; now subst | now apply (IH k)].
Qed.

Lemma receiveCoin_landed confirmed h i v ab :
  (confirmed = true -> pendingFree h ab) ->
  receiveCoin confirmed (mkCoin i h v) ab = landed confirmed ab [mkCoin i h v].
Proof.
  intros Hp. unfold receiveCoin, landed. destruct confirmed; [|reflexivity].
  cbn [txid index].
  destruct (findIndex (findFunc h i) (unconfirmed ab)) as [ind|] eqn:F; [|reflexivity].
  destruct (findIndex_Some _ _ _ F) as (l1 & x & l2 & Hu & _ & Hx & _).
  exfalso. apply (Hp eq_refl x).
  - rewrite Hu. apply in_or_app. right. now left.
  - unfold findFunc in Hx. apply andb_true_iff in Hx. destruct Hx as [Hx _].
    now apply String.eqb_eq in Hx.
Qed.

Lemma landed_app confirmed ab l1 l2 :
  landed confirmed (landed confirmed ab l1) l2 = landed confirmed ab (l1 ++ l2).
Proof. destruct confirmed; simpl; now rewrite <- app_assoc. Qed.

Lemma landed_pendingFree h ab coins :
  pendingFree h ab -> pendingFree h (landed true ab coins).
Proof. intros H. exact H. Qed.

Lemma addCoins_lands (ASSETS : string -> option string) confirmed h outs :
  forall i b,
    outputsTracked ASSETS outs (assets b) ->
    (confirmed = true -> ledgersAll (pendingFree h) (assets b)) ->
    exists b',
      addCoins ASSETS confirmed h i outs b = Normal b' /\
      address b' = address b /\ net b' = net b /\
      assetSymbols b' = assetSymbols b /\
      tokenSymbols b' = tokenSymbols b /\ tokens b' = tokens b /\
      JsObj.insertion_keys (assets b') = JsObj.insertion_keys (assets b) /\
      (forall k ab, JsObj.get (assets b) k = Some ab ->
         JsObj.get (assets b') k = Some (landed confirmed ab (coinsFor ASSETS h k i outs))).
Proof.
  induction outs as [|output outs IH]; intros i b Htr Hp.
  - exists b. simpl. repeat split; auto. intros k ab G. rewrite G. f_equal.
    destruct ab; destruct confirmed; simpl; now rewrite app_nil_r.
  - cbn [addCoins coinsFor].
    destruct (Htr output (or_introl eq_refl)) as (s & Hs & Hg). rewrite Hs.
    destruct (JsObj.get (assets b) s) as [ab0|] eqn:G0; [|congruence].
    rewrite receiveCoin_landed by (intros Hc; apply (Hp Hc s); assumption).
    set (b1 := with_assets b
                 (JsObj.set (assets b) s
                    (landed confirmed ab0 [mkCoin i h (outputValue output)]))).
    destruct (IH (i + 1) b1) as (b' & Heq & H1 & H2 & H3 & H4 & H5 & H6 & H7).
    { intros out Hout. destruct (Htr out (or_intror Hout)) as (s' & Hs' & Hg').
      exists s'. split; [assumption|]. simpl. now apply get_set_keeps. }
    { intros Hc. simpl. apply ledgersAll_set; [|now apply Hp].
      rewrite Hc. apply landed_pendingFree. now apply (Hp Hc s). }
    exists b'. split; [assumption|]. simpl in *.
    rewrite H6, keys_set_present by congruence.
    repeat split; try assumption.
    intros k ab G. destruct (String.eqb s k) eqn:E.
    + apply String.eqb_eq in E. subst k. rewrite G in G0. inversion G0; subst ab0.
      rewrite (H7 s (landed confirmed ab [mkCoin i h (outputValue output)]))
        by apply get_set_eq.
      now rewrite landed_app.
    + rewrite (H7 k ab); [reflexivity|].
      rewrite get_set_neq; [assumption|]. now apply String.eqb_neq.
Qed.

Lemma spendCoins_tracked_outputs (ASSETS : string -> option string) ins outs b :
  tracked b -> outputsTracked ASSETS outs (assets b) ->
  exists b1, spendCoins ins b = Normal b1 /\ outputsTracked ASSETS outs (assets b1).
Proof.
  intros Htr Hout.
  destruct (spendCoins_keys ins b Htr) as (b1 & Heq & _ & _ & _ & _ & _ & Hk).
  exists b1. split; [assumption|]. intros out Hin.
  destruct (Hout out Hin) as (s & Hs & Hg). exists s. split; [assumption|].
  intros Hnone. apply Hg. now apply Hk.
Qed.

(** X7: an unconfirmed applyTx on tracked assets.  When every listed symbol
    has a ledger and every output is of a registered asset with a ledger,
    applyTx returns; relative to the state the spend phase leaves, each
    ledger has gained, at the end of [unconfirmed] and in output order, one
    coin per output of its asset, carrying the transaction hash, the
    position of the output and its value; [unspent], [spent], the keys and
    the symbol list are as the spend phase left them. *)
Theorem applyTx_unconfirmed_lands (ASSETS : string -> option string) tx b :
  tracked b ->
  outputsTracked ASSETS (outputs tx) (assets b) ->
  exists b1 b',
    spendCoins (inputs tx) b = Normal b1 /\
    applyTx ASSETS tx false b = Normal b' /\
    assetSymbols b' = assetSymbols b /\
    JsObj.insertion_keys (assets b') = JsObj.insertion_keys (assets b1) /\
    forall k ab, JsObj.get (assets b1) k = Some ab ->
      JsObj.get (assets b') k
      = Some (mkAssetBalance (unspent ab) (spent ab)
                (unconfirmed ab ++ coinsFor ASSETS (hash tx) k 0 (outputs tx))).
Proof.
  intros Htr Hout.
  destruct (spendCoins_tracked_outputs ASSETS (inputs tx) (outputs tx) b Htr Hout)
    as (b1 & Heq & Hout1).
  destruct (addCoins_lands ASSETS false (hash tx) (outputs tx) 0 b1 Hout1)
    as (b' & Hadd & _ & _ & Hs & _ & _ & Hk & Hland); [discriminate|].
  exists b1, b'. unfold applyTx. rewrite Heq. simpl.
  destruct (spendCoins_frame (inputs tx) b) as (_ & _ & Hs1 & _). rewrite Heq in Hs1.
  simpl in Hs1. repeat split; try assumption. congruence.
Qed.

(** X8: a confirmed applyTx on tracked assets.  Under the conditions of X7,
    when no ledger holds a pending coin of this transaction, each ledger
    has gained its new coins at the end of [unspent], in output order, and
    [spent] and [unconfirmed] are as the spend phase left them. *)
Theorem applyTx_confirmed_lands (ASSETS : string -> option string) tx b :
  tracked b ->
  outputsTracked ASSETS (outputs tx) (assets b) ->
  ledgersAll (pendingFree (hash tx)) (assets b) ->
  exists b1 b',
    spendCoins (inputs tx) b = Normal b1 /\
    applyTx ASSETS tx true b = Normal b' /\
    assetSymbols b' = assetSymbols b /\
    JsObj.insertion_keys (assets b') = JsObj.insertion_keys (assets b1) /\
    forall k ab, JsObj.get (assets b1) k = Some ab ->
      JsObj.get (assets b') k
      = Some (mkAssetBalance (unspent ab ++ coinsFor ASSETS (hash tx) k 0 (outputs tx))
                (spent ab) (unconfirmed ab)).
Proof.
  intros Htr Hout Hfree.
  destruct (spendCoins_tracked_outputs ASSETS (inputs tx) (outputs tx) b Htr Hout)
    as (b1 & Heq & Hout1).
  assert (Hfree1 : ledgersAll (pendingFree (hash tx)) (assets b1)).
  { pose proof (spendCoins_all (pendingFree (hash tx)) (inputs tx) b) as Hall.
    rewrite Heq in Hall. apply Hall; [|assumption].
    intros ab l1 c l2 _ H. exact H. }
  destruct (addCoins_lands ASSETS true (hash tx) (outputs tx) 0 b1 Hout1)
    as (b' & Hadd & _ & _ & Hs & _ & _ & Hk & Hland); [auto|].
  exists b1, b'. unfold applyTx. rewrite Heq. simpl.
  destruct (spendCoins_frame (inputs tx) b) as (_ & _ & Hs1 & _). rewrite Heq in Hs1.
  simpl in Hs1. repeat split; try assumption. congruence.
Qed.

(** ** Pending then confirmed *)

Lemma obj_ext {V} (o1 o2 : JsObj.t V) :
  NoDup (JsObj.insertion_keys o1) ->
  JsObj.insertion_keys o1 = JsObj.insertion_keys o2 ->
  (forall k, JsObj.get o1 k = JsObj.get o2 k) ->
  o1 = o2.
Proof.
  revert o2. induction o1 as [|[k v] o1 IH]; intros [|[k' v'] o2] Hnd Hk Hget;
    simpl in Hk; try discriminate; [reflexivity|].
  injection Hk as <- Hk. inversion Hnd as [|? ? Hnotin Hnd']; subst.
  pose proof (Hget k) as Hh. simpl in Hh. rewrite String.eqb_refl in Hh.
  injection Hh as <-. f_equal. apply IH; try assumption.
  intros j. destruct (String.eqb k j) eqn:E.
  - apply String.eqb_eq in E. subst j.
    rewrite (proj2 (get_none_keys o1 k)) by assumption.
    symmetry. apply get_none_keys. now rewrite <- Hk.
  - specialize (Hget j). simpl in Hget. now rewrite E in Hget.
Qed.

Lemma Balance_ext b b' :
  address b = address b' -> net b = net b' ->
  assetSymbols b = assetSymbols b' -> assets b = assets b' ->
  tokenSymbols b = tokenSymbols b' -> tokens b = tokens b' ->
  b = b'.
Proof. destruct b, b'; simpl; intros; now subst. Qed.

(** X9: pending, then confirmed in a block.  On a Balance that satisfies
    the data-model invariant and holds no pending coin, applying a
    transaction whose outputs are all of tracked assets as unconfirmed and
    then calling confirm leaves exactly the state that applying it as
    confirmed leaves. *)
Theorem applyTx_then_confirm (ASSETS : string -> option string) tx b :
  sound b -> listedKeys b -> drained b ->
  outputsTracked ASSETS (outputs tx) (assets b) ->
  andThen (applyTx ASSETS tx false b) confirm = applyTx ASSETS tx true b.
Proof.
  intros Hb Hl Hd Hout.
  destruct (spendCoins_tracked_outputs ASSETS (inputs tx) (outputs tx) b (proj1 Hb) Hout)
    as (b1 & Heq & Hout1).
  destruct (spendCoins_frame (inputs tx) b) as (_ & _ & Hs1 & _ & _ & Hk1).
  pose proof (spendCoins_sound (inputs tx) b Hb) as Hb1.
  pose proof (spendCoins_all (fun ab => unconfirmed ab = []) (inputs tx) b) as Hd1.
  rewrite Heq in Hs1, Hk1, Hb1, Hd1. simpl in Hs1, Hk1, Hb1, Hd1.
  specialize (Hd1 (fun ab l1 c l2 _ H => H) Hd).
  destruct (addCoins_lands ASSETS false (hash tx) (outputs tx) 0 b1 Hout1)
    as (bF & HF & F1 & F2 & F3 & F4 & F5 & F6 & F7); [discriminate|].
  destruct (addCoins_lands ASSETS true (hash tx) (outputs tx) 0 b1 Hout1)
    as (bT & HT & T1 & T2 & T3 & T4 & T5 & T6 & T7).
  { intros _ k ab G c Hc. rewrite (Hd1 k ab G) in Hc. contradiction. }
  unfold applyTx. rewrite Heq. simpl. rewrite HF, HT. simpl. unfold confirm.
  assert (HtrF : forall sym, In sym (assetSymbols bF) -> JsObj.get (assets bF) sym <> None).
  { intros sym Hin. apply (same_keys_kept (assets b1)); [assumption|].
    apply (proj1 Hb1). now rewrite <- F3. }
  destruct (confirmLoop_spec (assetSymbols bF) (assets bF) HtrF)
    as (a' & -> & Hk' & Hin' & Hout').
  f_equal. apply Balance_ext; simpl; try congruence.
  apply obj_ext.
  - rewrite Hk', F6. apply Hb1.
  - congruence.
  - intros k. destruct (JsObj.get (assets b1) k) as [ab|] eqn:G.
    + assert (Hlisted : In k (assetSymbols bF)).
      { rewrite F3, Hs1. apply Hl. apply (same_keys_kept (assets b1)); [now symmetry|].
        congruence. }
      rewrite (Hin' k Hlisted), (F7 k ab G), (T7 k ab G). simpl.
      unfold promote. simpl. now rewrite (Hd1 k ab G).
    + assert (HnF : JsObj.get (assets bF) k = None).
      { apply get_none_keys. rewrite F6. now apply get_none_keys. }
      assert (HnT : JsObj.get (assets bT) k = None).
      { apply get_none_keys. rewrite T6. now apply get_none_keys. }
      rewrite HnT. destruct (in_dec string_dec k (assetSymbols bF)) as [Hi|Hni].
      * now rewrite (Hin' k Hi), HnF.
      * now rewrite (Hout' k Hni).
Qed.

(** ** Conservation of coins *)

Lemma sumValues_perm l l' : Permutation l l' -> sumValues l = sumValues l'.
Proof. induction 1; simpl; lia. Qed.

Lemma spentFrom_refl ab : spentFrom ab ab.
Proof. split; reflexivity. Qed.

Lemma spentFrom_trans ab1 ab2 ab3 :
  spentFrom ab1 ab2 -> spentFrom ab2 ab3 -> spentFrom ab1 ab3.
Proof.
  intros [P1 U1] [P2 U2]. split; [now transitivity (unspent ab2 ++ spent ab2) | congruence].
Qed.

Lemma spentFrom_step ab l1 c l2 :
  unspent ab = l1 ++ c :: l2 ->
  spentFrom ab (mkAssetBalance (l1 ++ l2) (spent ab ++ [c]) (unconfirmed ab)).
Proof.
  intros Hu. split; [|reflexivity]. simpl. rewrite Hu.
  transitivity (c :: l1 ++ l2 ++ spent ab).
  - rewrite <- app_assoc. simpl. apply Permutation_sym, Permutation_middle.
  - rewrite <- app_assoc. rewrite !app_assoc. apply Permutation_cons_append.
Qed.

Lemma bothOr_refl (R : AssetBalance -> AssetBalance -> Prop) o :
  (forall ab, R ab ab) -> bothOr R o o.
Proof. intros HR. destruct o; simpl; auto. Qed.

Lemma bothOr_trans (R : AssetBalance -> AssetBalance -> Prop) o1 o2 o3 :
  (forall x y z, R x y -> R y z -> R x z) ->
  bothOr R o1 o2 -> bothOr R o2 o3 -> bothOr R o1 o3.
Proof.
  intros HR. destruct o1, o2, o3; simpl; try tauto. apply HR.
Qed.

Lemma spendInput_spentFrom input symbols a k :
  bothOr spentFrom (JsObj.get a k) (JsObj.get (store (spendInput input symbols a)) k).
Proof.
  induction symbols as [|sym symbols IH]; simpl.
  - apply bothOr_refl, spentFrom_refl.
  - destruct (JsObj.get a sym) as [ab|] eqn:G; [|apply bothOr_refl, spentFrom_refl].
    destruct (findIndex _ (unspent ab)) as [ind|] eqn:F; [|assumption].
    simpl. rewrite get_set. destruct (String.eqb sym k) eqn:E.
    + apply String.eqb_eq in E. subst k. rewrite G. simpl.
      destruct (spendAt_split _ _ _ F) as (l1 & c & l2 & Hu & ->).
      now apply spentFrom_step.
    + apply bothOr_refl, spentFrom_refl.
Qed.

Lemma spendCoins_spentFrom ins b k :
  bothOr spentFrom (JsObj.get (assets b) k)
    (JsObj.get (assets (store (spendCoins ins b))) k).
Proof.
  revert b. induction ins as [|input ins IH]; intros b; simpl.
  - apply bothOr_refl, spentFrom_refl.
  - pose proof (spendInput_spentFrom input (assetSymbols b) (assets b) k) as Hs.
    destruct (spendInput input (assetSymbols b) (assets b)) as [a'|e a']; simpl in *.
    + apply (bothOr_trans spentFrom _ (JsObj.get a' k)); [apply spentFrom_trans | assumption|].
      apply (IH (with_assets b a')).
    + assumption.
Qed.

(** X10: the spend phase of applyTx neither creates nor destroys a coin.
    Whatever the inputs, under every key the ledger is there after the
    phase exactly when it was before, its unspent and spent coins taken
    together are the same coins, its pending coins are untouched, and so
    what left the balance is what joined the spent coins. *)
Theorem spendCoins_conserves ins b k :
  bothOr
    (fun ab ab' =>
       Permutation (unspent ab ++ spent ab) (unspent ab' ++ spent ab') /\
       unconfirmed ab' = unconfirmed ab /\
       balance ab' + sumValues (spent ab') = balance ab + sumValues (spent ab))
    (JsObj.get (assets b) k)
    (JsObj.get (assets (store (spendCoins ins b))) k).
Proof.
  pose proof (spendCoins_spentFrom ins b k) as H.
  destruct (JsObj.get (assets b) k) as [ab|],
           (JsObj.get (assets (store (spendCoins ins b))) k) as [ab'|]; simpl in *; auto.
  destruct H as [Hp Hu]. repeat split; try assumption.
  rewrite !balance_sum, <- !sumValues_app. symmetry. now apply sumValues_perm.
Qed.

(** X11: confirm turns pending value into balance.  On a Balance whose
    listed symbols all have a ledger, after confirm the balance of every
    listed ledger is its former balance plus the sum of its former pending
    coins, and the ledger holds the same coins as before. *)
Theorem confirm_adds_pending b :
  tracked b ->
  exists b',
    confirm b = Normal b' /\
    forall sym ab, In sym (assetSymbols b) -> JsObj.get (assets b) sym = Some ab ->
      exists ab',
        JsObj.get (assets b') sym = Some ab' /\
        balance ab' = balance ab + sumValues (unconfirmed ab) /\
        Permutation (allCoins ab') (allCoins ab).
Proof.
  intros Htr. unfold confirm.
  destruct (confirmLoop_spec (assetSymbols b) (assets b) Htr) as (a' & -> & _ & Hin & _).
  eexists. split; [reflexivity|]. simpl.
  intros sym ab Hs G. exists (promote ab). rewrite (Hin sym Hs), G.
  split; [reflexivity|]. split.
  - rewrite !balance_sum. unfold promote. simpl. apply sumValues_app.
  - unfold allCoins, promote. simpl. rewrite app_nil_r, <- app_assoc.
    apply Permutation_app_head, Permutation_app_comm.
Qed.

(** ** More on verification *)

Lemma filter_none_left {A} (f : A -> bool) l :
  filter (fun x => negb (f x)) (filter f l) = [].
Proof.
  induction l as [|x l IH]; simpl; [reflexivity|].
  destruct (f x) eqn:E; simpl; [rewrite E|]; assumption.
Qed.

Lemma sumValues_partition (f : Coin -> bool) l :
  sumValues (filter f l) + sumValues (filter (fun c => negb (f c)) l) = sumValues l.
Proof.
  induction l as [|c l IH]; simpl; [reflexivity|].
  destruct (f c); simpl; lia.
Qed.

Lemma sumValues_nonneg l : (forall c, In c l -> 0 <= value c) -> 0 <= sumValues l.
Proof.
  induction l as [|c l IH]; intros H; simpl; [lia|].
  assert (0 <= value c) by (apply H; now left).
  assert (0 <= sumValues l) by (apply IH; intros c' Hc'; apply H; now right). lia.
Qed.

(** X12: the spent list verifyAssets builds does not accumulate.  After two
    verifications in a row against a node giving the same answers, every
    listed ledger keeps the coins that passed, and its [spent] list is
    empty: the coins the first verification had moved there are gone. *)
Theorem verifyAssets_twice getTxOut url b b' b'' sym ab :
  verifyAssets getTxOut url b = Normal b' ->
  verifyAssets getTxOut url b' = Normal b'' ->
  In sym (assetSymbols b) ->
  JsObj.get (assets b) sym = Some ab ->
  JsObj.get (assets b'') sym
  = Some (mkAssetBalance (filter (coinValid getTxOut url) (unspent ab)) [] []).
Proof.
  intros H1 H2 Hin G.
  pose proof (verifyAssets_replaced getTxOut url b b' sym ab H1 Hin G) as G'.
  assert (Hin' : In sym (assetSymbols b')).
  { destruct (verifyAssets_inv _ _ _ _ H1) as (_ & ->). exact Hin. }
  rewrite (verifyAssets_replaced getTxOut url b' b'' sym _ H2 Hin' G').
  unfold verified. simpl. now rewrite filter_twice, filter_none_left.
Qed.

(** X13: verification moves value, it does not make any.  After a
    verifyAssets that resolved, the new balance of every listed ledger plus
    the value of its new spent coins is its former balance; when no unspent
    coin had a negative value, the balance has not grown. *)
Theorem verifyAssets_value getTxOut url b b' sym ab :
  verifyAssets getTxOut url b = Normal b' ->
  In sym (assetSymbols b) ->
  JsObj.get (assets b) sym = Some ab ->
  exists ab',
    JsObj.get (assets b') sym = Some ab' /\
    balance ab' + sumValues (spent ab') = balance ab /\
    ((forall c, In c (unspent ab) -> 0 <= value c) -> balance ab' <= balance ab).
Proof.
  intros Hv Hin G. exists (verified getTxOut url ab).
  split; [now apply (verifyAssets_replaced getTxOut url b b')|].
  rewrite !balance_sum. simpl.
  pose proof (sumValues_partition (coinValid getTxOut url) (unspent ab)) as Hp.
  split; [assumption|]. intros Hpos.
  assert (0 <= sumValues (filter (fun c => negb (coinValid getTxOut url c)) (unspent ab))).
  { apply sumValues_nonneg. intros c Hc. apply filter_In in Hc. now apply Hpos. }
  lia.
Qed.

(** ** The constructor and export, further *)

Lemma assign_upper_get {V} (g : string -> V) ks k :
  (forall k', In k' ks -> toUpperCase k' = k') ->
  JsObj.get (fold_left (fun o k' => JsObj.set o (toUpperCase k') (g k')) ks JsObj.empty) k
  = if in_dec string_dec k ks then Some (g k) else None.
Proof.
  intros Hup.
  rewrite (fold_left_ext_in _ (fun o k' => JsObj.set o k' (g k'))).
  - rewrite get_assign_all. reflexivity.
  - intros k' acc Hk'. now rewrite Hup.
Qed.

Lemma assign_upper_keys {V} (g : string -> V) ks :
  NoDup ks -> (forall k', In k' ks -> toUpperCase k' = k') ->
  JsObj.insertion_keys
    (fold_left (fun o k' => JsObj.set o (toUpperCase k') (g k')) ks JsObj.empty) = ks.
Proof.
  intros Hnd Hup.
  rewrite (fold_left_ext_in _ (fun o k' => JsObj.set o k' (g k'))).
  - now rewrite keys_assign_fresh.
  - intros k' acc Hk'. now rewrite Hup.
Qed.

Lemma keys_upper {V} (o : JsObj.t V) :
  upperKeys o -> forall k, In k (JsObj.keys o) -> toUpperCase k = k.
Proof.
  intros [_ Hup] k Hk. apply Hup. apply get_in_keys. now apply keys_In.
Qed.

Lemma newBalance_of_upper addr nt syms A tsyms T :
  upperKeys A -> upperKeys T ->
  let b := newBalance (mkBalanceLike addr nt syms (Some A) tsyms (Some T)) in
  address b = or_default addr "" /\
  net b = or_default nt "NoNet" /\
  assetSymbols b = JsObj.keys A /\
  tokenSymbols b = JsObj.keys T /\
  JsObj.insertion_keys (assets b) = JsObj.keys A /\
  JsObj.insertion_keys (tokens b) = JsObj.keys T /\
  (forall k, JsObj.get (assets b) k
             = option_map (fun l => newAssetBalance (Some l)) (JsObj.get A k)) /\
  (forall k, JsObj.get (tokens b) k = option_map newFixed8 (JsObj.get T k)).
Proof.
  intros HA HT. unfold newBalance. cbn [like_address like_net like_assets like_tokens].
  set (b0 := mkBalance (or_default addr "") (or_default nt "NoNet") [] JsObj.empty [] JsObj.empty).
  destruct (fold_addAsset A (JsObj.keys A) b0) as (A1 & A2 & A3 & A4 & A5 & A6).
  set (b1 := fold_left (fun b2 key => addAsset key (JsObj.get A key) b2) (JsObj.keys A) b0) in *.
  destruct (fold_addToken T (JsObj.keys T) b1) as (T1 & T2 & T3 & T4 & T5 & T6).
  cbv zeta in *.
  pose proof (keys_upper A HA) as HupA. pose proof (keys_upper T HT) as HupT.
  rewrite T1, T2, T3, T4, T5, T6, A1, A2, A3, A4, A5, A6.
  rewrite !map_upper_fixed by assumption. subst b0. simpl.
  assert (HndA : NoDup (JsObj.keys A)) by (apply order_keys_NoDup, HA).
  assert (HndT : NoDup (JsObj.keys T)) by (apply order_keys_NoDup, HT).
  repeat split.
  - now apply assign_upper_keys.
  - now apply assign_upper_keys.
  - intros k. rewrite (assign_upper_get (fun k' => newAssetBalance (JsObj.get A k'))) by assumption.
    destruct (in_dec string_dec k (JsObj.keys A)) as [Hin|Hnin].
    + apply keys_In in Hin. destruct (JsObj.get A k) eqn:G; [reflexivity | congruence].
    + destruct (JsObj.get A k) eqn:G; [|reflexivity].
      exfalso. apply Hnin. apply keys_In. congruence.
  - intros k.
    rewrite (assign_upper_get
               (fun k' => match JsObj.get T k' with Some a => newFixed8 a | None => 0 end))
      by assumption.
    destruct (in_dec string_dec k (JsObj.keys T)) as [Hin|Hnin].
    + apply keys_In in Hin. destruct (JsObj.get T k) eqn:G; [reflexivity | congruence].
    + destruct (JsObj.get T k) eqn:G; [|reflexivity].
      exfalso. apply Hnin. apply keys_In. congruence.
Qed.

(** X14: what the constructor builds from a snapshot whose asset and token
    records hold each key once and upper-cased.  The address is the
    snapshot's (empty when missing), the network is the snapshot's ("NoNet"
    when missing or empty); the symbol lists are the keys of the two records
    in Object.keys order, whatever lists the snapshot carried; every asset
    key holds the ledger normalised from its entry, every token key its
    amount, and no other key is present. *)
Theorem newBalance_builds addr nt syms A tsyms T :
  upperKeys A -> upperKeys T ->
  let b := newBalance (mkBalanceLike addr nt syms (Some A) tsyms (Some T)) in
  address b = or_default addr "" /\
  net b = or_default nt "NoNet" /\
  assetSymbols b = JsObj.keys A /\
  tokenSymbols b = JsObj.keys T /\
  JsObj.insertion_keys (assets b) = JsObj.keys A /\
  JsObj.insertion_keys (tokens b) = JsObj.keys T /\
  (forall k, JsObj.get (assets b) k
             = option_map (fun l => newAssetBalance (Some l)) (JsObj.get A k)) /\
  (forall k, JsObj.get (tokens b) k = option_map newFixed8 (JsObj.get T k)).
Proof. apply newBalance_of_upper. Qed.

(** X15: exportAssets and exportTokens export every entry under its own key
    and nothing else, a ledger as AssetBalance.export gives it and a token
    amount as the number [toNumber] gives, and list the keys in the order
    Object.keys gives for the original mapping. *)
Theorem export_entries a t :
  (forall k, JsObj.get (exportAssets a) k
             = option_map exportAssetBalance (JsObj.get a k)) /\
  (forall k, JsObj.get (exportTokens t) k
             = option_map (fun v => ANumber (toNumber v)) (JsObj.get t k)) /\
  (NoDup (JsObj.insertion_keys a) -> JsObj.insertion_keys (exportAssets a) = JsObj.keys a) /\
  (NoDup (JsObj.insertion_keys t) -> JsObj.insertion_keys (exportTokens t) = JsObj.keys t).
Proof.
  split; [apply exportAssets_get|]. split; [apply exportTokens_get|]. split.
  - intros Hnd. unfold exportAssets.
    rewrite (rebuild_keys_from exportAssetBalance a); [reflexivity | | reflexivity |].
    + now apply order_keys_NoDup.
    + intros k. apply keys_In.
  - intros Hnd. unfold exportTokens.
    rewrite (rebuild_keys_from (fun v : Fixed8 => ANumber (toNumber v)) t);
      [reflexivity | | reflexivity |].
    + now apply order_keys_NoDup.
    + intros k. apply keys_In.
Qed.

Lemma exportAssets_upper a : upperKeys a -> upperKeys (exportAssets a).
Proof.
  intros Ha. unfold upperKeys, exportAssets.
  rewrite (rebuild_keys_from exportAssetBalance a);
    [| now apply order_keys_NoDup, Ha | reflexivity | intros k; apply keys_In].
  simpl. split; [apply order_keys_NoDup, Ha | now apply keys_upper].
Qed.

Lemma exportTokens_upper t : upperKeys t -> upperKeys (exportTokens t).
Proof.
  intros Ht. unfold upperKeys, exportTokens.
  rewrite (rebuild_keys_from (fun v : Fixed8 => ANumber (toNumber v)) t);
    [| now apply order_keys_NoDup, Ht | reflexivity | intros k; apply keys_In].
  simpl. split; [apply order_keys_NoDup, Ht | now apply keys_upper].
Qed.

Lemma exportStep_ext {V W} (f : V -> W) (o o' : JsObj.t V) :
  JsObj.keys o' = JsObj.keys o ->
  (forall k, JsObj.get o' k = JsObj.get o k) ->
  fold_left (exportStep f o') (JsObj.keys o') JsObj.empty
  = fold_left (exportStep f o) (JsObj.keys o) JsObj.empty.
Proof.
  intros Hk Hg. rewrite Hk. apply fold_left_ext_in.
  intros k acc _. unfold exportStep. now rewrite Hg.
Qed.

(** X16: a rebuilt Balance is a fixed point of the round trip.  For a
    Balance whose mappings hold each key once and upper-cased, whose
    network name is not empty and whose coin values and token amounts are
    exact as JS numbers, the Balance built from its export exports the same
    address, network, asset record and token record as the original, and
    building a Balance from that export gives it back unchanged, symbol
    lists included. *)
Theorem export_stable b :
  wellFormed b ->
  exactBalance b ->
  let b' := newBalance (export b) in
  like_address (export b') = like_address (export b) /\
  like_net (export b') = like_net (export b) /\
  like_assets (export b') = like_assets (export b) /\
  like_tokens (export b') = like_tokens (export b) /\
  newBalance (export b') = b'.
Proof.
  intros (Hnet & Ha & Ht) (Hexa & Hext). cbv zeta.
  destruct (newBalance_of_upper (Some (address b)) (Some (net b)) (Some (assetSymbols b))
              (exportAssets (assets b)) (Some (tokenSymbols b)) (exportTokens (tokens b))
              (exportAssets_upper _ Ha) (exportTokens_upper _ Ht))
    as (B1 & B2 & _ & _ & B5 & B6 & B7 & B8).
  change (newBalance (mkBalanceLike (Some (address b)) (Some (net b)) (Some (assetSymbols b))
            (Some (exportAssets (assets b))) (Some (tokenSymbols b))
            (Some (exportTokens (tokens b))))) with (newBalance (export b)) in *.
  set (b' := newBalance (export b)) in *.
  rewrite or_default_empty in B1. rewrite or_default_same in B2 by assumption.
  rewrite exportAssets_keys in B5 by apply Ha.
  rewrite exportTokens_keys in B6 by apply Ht.
  assert (Hga : forall k, JsObj.get (assets b') k = JsObj.get (assets b) k).
  { intros k. rewrite B7, exportAssets_get.
    destruct (JsObj.get (assets b) k) as [ab|] eqn:G; [|reflexivity].
    cbn [option_map]. rewrite newAssetBalance_export; [reflexivity | now apply (Hexa k)]. }
  assert (Hgt : forall k, JsObj.get (tokens b') k = JsObj.get (tokens b) k).
  { intros k. rewrite B8, exportTokens_get.
    destruct (JsObj.get (tokens b) k) as [v|] eqn:G; [|reflexivity].
    simpl. f_equal. now apply (Hext k). }
  assert (Hka : JsObj.keys (assets b') = JsObj.keys (assets b)).
  { unfold JsObj.keys at 1. rewrite B5. apply order_keys_idempotent. }
  assert (Hkt : JsObj.keys (tokens b') = JsObj.keys (tokens b)).
  { unfold JsObj.keys at 1. rewrite B6. apply order_keys_idempotent. }
  assert (Hea : exportAssets (assets b') = exportAssets (assets b))
    by (now apply exportStep_ext).
  assert (Het : exportTokens (tokens b') = exportTokens (tokens b))
    by (now apply exportStep_ext).
  unfold export at 1 3 5 7. cbn [like_address like_net like_assets like_tokens].
  rewrite B1, B2, Hea, Het. repeat split.
  unfold export at 1. unfold newBalance at 1.
  cbn [like_address like_net like_assets like_tokens].
  rewrite B1, B2, Hea, Het. reflexivity.
Qed.

(** ** Inputs the wallet does not own, and replays *)

Lemma spendCoins_foreign ins b :
  tracked b -> foreignInputs ins b -> spendCoins ins b = Normal b.
Proof.
  intros Htr Hf. induction ins as [|input ins IH]; simpl; [reflexivity|].
  rewrite spendInput_miss.
  - replace (with_assets b (assets b)) with b by (now destruct b).
    apply IH. intros i s ab Hi. apply Hf. now right.
  - exact Htr.
  - intros s ab Hs G. apply (Hf input s ab); auto. now left.
Qed.

(** X17: a transaction that spends nothing the wallet holds and pays
    nothing is a no-op.  On a Balance whose listed symbols all have a
    ledger, when no listed ledger holds unspent a coin any input refers to,
    the spend phase returns the Balance unchanged, and so does applyTx when
    the transaction has no output. *)
Theorem applyTx_foreign_inputs (ASSETS : string -> option string) tx confirmed b :
  tracked b ->
  foreignInputs (inputs tx) b ->
  spendCoins (inputs tx) b = Normal b /\
  (outputs tx = [] -> applyTx ASSETS tx confirmed b = Normal b).
Proof.
  intros Htr Hf. pose proof (spendCoins_foreign (inputs tx) b Htr Hf) as Hs.
  split; [assumption|]. intros Hout. unfold applyTx. rewrite Hs, Hout. reflexivity.
Qed.

Lemma findIndex_middle {A} (f : A -> bool) l1 x l2 :
  (forall y, In y l1 -> f y = false) -> f x = true ->
  findIndex f (l1 ++ x :: l2) = Some (List.length l1).
Proof.
  intros Hl1 Hx. induction l1 as [|a l1 IH]; simpl; [now rewrite Hx|].
  rewrite (Hl1 a) by now left. rewrite IH; [reflexivity|].
  intros y Hy. apply Hl1. now right.
Qed.

Lemma receiveCoin_pending h i v u sp uc rest :
  (forall c, In c uc -> txid c <> h) ->
  receiveCoin true (mkCoin i h v) (mkAssetBalance u sp (uc ++ mkCoin i h v :: rest))
  = mkAssetBalance (u ++ [mkCoin i h v]) sp (uc ++ rest).
Proof.
  intros Hfree. unfold receiveCoin. cbn [txid index unspent spent unconfirmed].
  rewrite findIndex_middle.
  - now rewrite splice1_at.
  - intros y Hy. unfold findFunc.
    destruct (String.eqb (txid y) h) eqn:E; [|reflexivity].
    apply String.eqb_eq in E. exfalso. now apply (Hfree y).
  - unfold findFunc. simpl. now rewrite String.eqb_refl, Z.eqb_refl.
Qed.

Lemma addCoins_over_pending (ASSETS : string -> option string) h outs :
  forall i b bp,
    outputsTracked ASSETS outs (assets b) ->
    ledgersAll (pendingFree h) (assets b) ->
    NoDup (JsObj.insertion_keys (assets b)) ->
    address bp = address b -> net bp = net b ->
    assetSymbols bp = assetSymbols b ->
    tokenSymbols bp = tokenSymbols b -> tokens bp = tokens b ->
    JsObj.insertion_keys (assets bp) = JsObj.insertion_keys (assets b) ->
    (forall k ab, JsObj.get (assets b) k = Some ab ->
       JsObj.get (assets bp) k
       = Some (mkAssetBalance (unspent ab) (spent ab)
                 (unconfirmed ab ++ coinsFor ASSETS h k i outs))) ->
    addCoins ASSETS true h i outs bp = addCoins ASSETS true h i outs b.
Proof.
  induction outs as [|output outs IH];
    intros i b bp Htr Hfree Hnd E1 E2 E3 E4 E5 Hk Hp.
  - simpl. f_equal. apply Balance_ext; try assumption.
    apply obj_ext; [now rewrite Hk | assumption|].
    intros k. destruct (JsObj.get (assets b) k) as [ab|] eqn:G.
    + rewrite (Hp k ab G). simpl. rewrite app_nil_r. now destruct ab.
    + apply get_none_keys. rewrite Hk. now apply get_none_keys.
  - cbn [addCoins].
    destruct (Htr output (or_introl eq_refl)) as (s & Hs & Hg). rewrite Hs.
    destruct (JsObj.get (assets b) s) as [ab0|] eqn:G0; [|congruence].
    pose proof (Hp s ab0 G0) as Gp. cbn [coinsFor] in Gp.
    rewrite Hs, String.eqb_refl in Gp. rewrite Gp.
    rewrite receiveCoin_pending by (apply (Hfree s ab0 G0)).
    rewrite (receiveCoin_landed true h i (outputValue output) ab0)
      by (intros _; apply (Hfree s ab0 G0)).
    apply IH; simpl; try assumption.
    + intros out Hout. destruct (Htr out (or_intror Hout)) as (s' & Hs' & Hg').
      exists s'. split; [assumption|]. now apply get_set_keeps.
    + apply ledgersAll_set; [|assumption]. apply (Hfree s ab0 G0).
    + rewrite keys_set_present by congruence. assumption.
    + rewrite !keys_set_present by congruence. assumption.
    + intros k ab. rewrite !get_set. destruct (String.eqb s k) eqn:E.
      * apply String.eqb_eq in E. subst k. intros G. injection G as <-. reflexivity.
      * intros G. rewrite (Hp k ab G). cbn [coinsFor]. rewrite Hs, E. reflexivity.
Qed.

(** X18: broadcast, then seen in a block.  Take a Balance that satisfies
    the data-model invariant and holds no pending coin of the transaction,
    whose outputs are all of tracked assets.  If after its spend phase no
    listed ledger still holds a coin its inputs refer to, then applying the
    transaction as unconfirmed and later again as confirmed leaves exactly
    the state applying it once as confirmed leaves: the pending coins are
    replaced, not duplicated. *)
Theorem applyTx_pending_then_confirmed (ASSETS : string -> option string) tx b b1 :
  sound b ->
  outputsTracked ASSETS (outputs tx) (assets b) ->
  ledgersAll (pendingFree (hash tx)) (assets b) ->
  spendCoins (inputs tx) b = Normal b1 ->
  foreignInputs (inputs tx) b1 ->
  andThen (applyTx ASSETS tx false b) (applyTx ASSETS tx true)
  = applyTx ASSETS tx true b.
Proof.
  intros Hb Hout Hfree Heq Hforeign.
  destruct (spendCoins_tracked_outputs ASSETS (inputs tx) (outputs tx) b (proj1 Hb) Hout)
    as (b1' & Heq' & Hout1).
  rewrite Heq in Heq'. injection Heq' as <-.
  pose proof (spendCoins_sound (inputs tx) b Hb) as Hb1.
  pose proof (spendCoins_all (pendingFree (hash tx)) (inputs tx) b) as Hfree1.
  rewrite Heq in Hb1, Hfree1. simpl in Hb1, Hfree1.
  specialize (Hfree1 (fun ab l1 c l2 _ H => H) Hfree).
  destruct (addCoins_lands ASSETS false (hash tx) (outputs tx) 0 b1 Hout1)
    as (bF & HF & F1 & F2 & F3 & F4 & F5 & F6 & F7); [discriminate|].
  unfold applyTx at 1. rewrite Heq. simpl. rewrite HF. simpl.
  unfold applyTx. rewrite Heq. simpl.
  assert (HtrF : tracked bF).
  { intros sym Hin. apply (same_keys_kept (assets b1)); [assumption|].
    apply (proj1 Hb1). now rewrite <- F3. }
  rewrite (spendCoins_foreign (inputs tx) bF HtrF).
  - simpl. apply addCoins_over_pending; try assumption. apply Hb1.
  - intros input sym ab Hi Hs G (c & Hc & Hm).
    destruct (JsObj.get (assets b1) sym) as [ab1|] eqn:G1.
    + rewrite (F7 sym ab1 G1) in G. injection G as <-. simpl in Hc.
      apply (Hforeign input sym ab1 Hi); [now rewrite <- F3 | assumption|].
      now exists c.
    + apply get_none_keys in G1. rewrite <- F6 in G1.
      apply get_none_keys in G1. congruence.
Qed.

Lemma spendInput_cases input symbols a :
  (forall sym, In sym symbols -> JsObj.get a sym <> None) ->
  (spendInput input symbols a = Normal a /\
   forall s ab, In s symbols -> JsObj.get a s = Some ab -> ~ owns input ab)
  \/
  (exists sym ab l1 c l2,
     In sym symbols /\ JsObj.get a sym = Some ab /\
     unspent ab = l1 ++ c :: l2 /\ matches input c /\
     spendInput input symbols a
     = Normal (JsObj.set a sym
                 (mkAssetBalance (l1 ++ l2) (spent ab ++ [c]) (unconfirmed ab)))).
Proof.
  induction symbols as [|sym symbols IH]; intros Htr.
  - left. split; [reflexivity | intros s ab []].
  - simpl. destruct (JsObj.get a sym) as [ab|] eqn:G.
    2: { exfalso. apply (Htr sym); [now left | assumption]. }
    destruct (findIndex (findFunc (prevHash input) (prevIndex input)) (unspent ab))
      as [ind|] eqn:F.
    + right. destruct (findIndex_Some _ _ _ F) as (l1 & c & l2 & Hu & Hlen & Hc & _).
      exists sym, ab, l1, c, l2.
      split; [now left|]. split; [assumption|]. split; [assumption|].
      split; [now apply findFunc_matches|].
      unfold spendAt. now rewrite Hu, <- Hlen, splice1_at.
    + apply findIndex_owns in F.
      destruct IH as [[Heq Hno]|(s & ab' & l1 & c & l2 & Hin & Hg & Hu & Hm & Heq)].
      * intros s Hs. apply Htr. now right.
      * left. split; [assumption|]. intros s ab' [<-|Hs] Hg.
        -- rewrite G in Hg. now injection Hg as <-.
        -- now apply (Hno s).
      * right. exists s, ab', l1, c, l2.
        split; [now right|]. repeat (split; [assumption|]). assumption.
Qed.

(** X19: an input is spent once.  On a mapping whose listed symbols all
    have a ledger and in which the coin the input refers to is held at most
    once, running the spend loop for that input a second time changes
    nothing: the coin moved to [spent] the first time is not moved, or
    recorded, again. *)
Theorem spendInput_replay input symbols a :
  (forall sym, In sym symbols -> JsObj.get a sym <> None) ->
  heldOnce input symbols a ->
  exists a1,
    spendInput input symbols a = Normal a1 /\
    spendInput input symbols a1 = Normal a1.
Proof.
  intros Htr [Hone Hothers].
  destruct (spendInput_cases input symbols a Htr)
    as [[Heq Hno]|(sym & ab & l1 & c & l2 & Hin & Hg & Hu & Hm & Heq)].
  - exists a. split; assumption.
  - eexists. split; [exact Heq|]. apply spendInput_miss.
    + intros s Hs. apply get_set_keeps. now apply Htr.
    + intros s x Hs. rewrite get_set. destruct (String.eqb sym s) eqn:E.
      * intros Gx. injection Gx as <-. intros (c' & Hc' & Hm'). simpl in Hc'.
        now apply (Hone sym ab l1 c l2 Hin Hg Hu Hm c').
      * intros Gx. apply String.eqb_neq in E.
        apply (Hothers sym s ab x); auto.
        exists c. split; [|assumption]. rewrite Hu. apply in_or_app. right. now left.
Qed.


(** ** The spend phase, input by input *)

Lemma spendAll_tracked ins symbols a :
  (forall sym, In sym symbols -> JsObj.get a sym <> None) ->
  forall sym, In sym symbols -> JsObj.get (spendAll ins symbols a) sym <> None.
Proof.
  revert a. induction ins as [|input ins IH]; intros a Htr; [exact Htr|].
  simpl. apply IH.
  destruct (spendInput_keys input symbols a Htr) as (a' & -> & Hk).
  simpl. intros sym Hs Hnone. apply Hk in Hnone. now apply (Htr sym).
Qed.

Lemma spendCoins_spendAll ins b :
  tracked b ->
  spendCoins ins b
  = Normal (with_assets b (spendAll ins (assetSymbols b) (assets b))).
Proof.
  revert b. induction ins as [|input ins IH]; intros b Htr; simpl.
  - now destruct b.
  - destruct (spendInput_keys input (assetSymbols b) (assets b) Htr) as (a' & Heq & Hk).
    rewrite Heq. simpl. rewrite IH; [reflexivity|].
    intros sym Hs. simpl. intros Hnone. apply Hk in Hnone. now apply (Htr sym).
Qed.

Lemma spendAll_snoc pre input symbols a :
  spendAll (pre ++ [input]) symbols a
  = store (spendInput input symbols (spendAll pre symbols a)).
Proof. unfold spendAll. now rewrite fold_left_app. Qed.

(** C3: the spend phase of applyTx, on a Balance whose listed symbols all
    have a ledger.  The phase returns normally, and the receive phase
    starts from the mapping reached by taking the inputs one after the
    other, in order.  For each input, on the mapping the earlier inputs
    left: if some ledger, in the stored order of the symbols, holds unspent
    a coin with the input's identity, then in the first such ledger the
    first such coin leaves [unspent] and is appended to [spent], and
    nothing else is written for that input, whatever the later symbols
    hold; if no ledger holds one, the mapping is left as it was. *)
Theorem spendCoins_first_owner (ASSETS : string -> option string) tx confirmed b :
  tracked b ->
  let symbols := assetSymbols b in
  spendCoins (inputs tx) b
  = Normal (with_assets b (spendAll (inputs tx) symbols (assets b))) /\
  applyTx ASSETS tx confirmed b
  = addCoins ASSETS confirmed (hash tx) 0 (outputs tx)
      (with_assets b (spendAll (inputs tx) symbols (assets b))) /\
  forall pre input post,
    inputs tx = pre ++ input :: post ->
    let a := spendAll pre symbols (assets b) in
    let a' := spendAll (pre ++ [input]) symbols (assets b) in
    (forall p sym q ab,
        symbols = p ++ sym :: q ->
        (forall s ab', In s p -> JsObj.get a s = Some ab' -> ~ owns input ab') ->
        JsObj.get a sym = Some ab -> owns input ab ->
        exists l1 coin l2,
          unspent ab = l1 ++ coin :: l2 /\ matches input coin /\
          (forall c, In c l1 -> ~ matches input c) /\
          a' = JsObj.set a sym
                 (mkAssetBalance (l1 ++ l2) (spent ab ++ [coin]) (unconfirmed ab)))
    /\
    ((forall s ab, In s symbols -> JsObj.get a s = Some ab -> ~ owns input ab) ->
     a' = a).
Proof.
  intros Htr. cbv zeta.
  pose proof (spendCoins_spendAll (inputs tx) b Htr) as Hsp.
  split; [assumption|]. split; [unfold applyTx; now rewrite Hsp|].
  intros pre input post _.
  pose proof (spendAll_tracked pre (assetSymbols b) (assets b) Htr) as Htr'.
  rewrite spendAll_snoc. split.
  - intros p sym q ab Hsym Hmiss G Hown.
    destruct (spendInput_hit input p sym q (spendAll pre (assetSymbols b) (assets b)) ab)
      as (l1 & coin & l2 & Hu & Hm & Hl1 & Heq); auto.
    { intros s Hs. apply Htr'. rewrite Hsym. apply in_or_app. now left. }
    exists l1, coin, l2. repeat (split; [assumption|]).
    rewrite <- Hsym in Heq. rewrite Heq. reflexivity.
  - intros Hmiss. now rewrite spendInput_miss.
Qed.

(** ** Disjoint coin sets under the caller's obligations *)

Lemma allCoins_spend_perm ab l1 c l2 :
  unspent ab = l1 ++ c :: l2 ->
  Permutation (unspent ab ++ spent ab)
    ((l1 ++ l2) ++ spent ab ++ [c]).
Proof.
  intros ->. transitivity (c :: l1 ++ l2 ++ spent ab).
  - rewrite <- app_assoc. simpl. apply Permutation_sym, Permutation_middle.
  - rewrite <- app_assoc. rewrite !app_assoc. apply Permutation_cons_append.
Qed.

Lemma receiving_spend h confirmed i ab l1 c l2 :
  unspent ab = l1 ++ c :: l2 ->
  receiving h confirmed i ab ->
  receiving h confirmed i
    (mkAssetBalance (l1 ++ l2) (spent ab ++ [c]) (unconfirmed ab)).
Proof.
  intros Hu [Hnd Hreg].
  pose proof (allCoins_spend_perm ab l1 c l2 Hu) as Hp.
  assert (Hall : Permutation (allCoins ab)
                   (allCoins (mkAssetBalance (l1 ++ l2) (spent ab ++ [c]) (unconfirmed ab)))).
  { unfold allCoins. simpl.
    rewrite (app_assoc (unspent ab) (spent ab) (unconfirmed ab)).
    rewrite (app_assoc (l1 ++ l2) (spent ab ++ [c]) (unconfirmed ab)).
    now apply Permutation_app_tail. }
  split.
  - apply (Permutation_NoDup (l := ids (allCoins ab))); [|assumption].
    unfold ids. now apply Permutation_map.
  - intros x Hx. apply Hreg. destruct confirmed; simpl in Hx.
    + apply (Permutation_in x (Permutation_sym Hp)). assumption.
    + apply (Permutation_in x (Permutation_sym Hall)). assumption.
Qed.

Lemma receiving_mono h confirmed i j ab :
  i <= j -> receiving h confirmed i ab -> receiving h confirmed j ab.
Proof.
  intros Hij [Hnd Hreg]. split; [assumption|].
  intros c Hc Ht. specialize (Hreg c Hc Ht). lia.
Qed.

Lemma receiving_empty h confirmed i : receiving h confirmed i (mkAssetBalance [] [] []).
Proof. split; [constructor|]. destruct confirmed; intros c []. Qed.

Lemma receiving_start h confirmed ab :
  NoDup (ids (allCoins ab)) -> noCoinOf h confirmed ab -> receiving h confirmed 0 ab.
Proof.
  intros Hnd Hno. split; [assumption|]. intros c Hc Ht. exfalso. now apply (Hno c).
Qed.

Lemma in_ids c l : In c l -> In (coinId c) (ids l).
Proof. intros H. unfold ids. now apply in_map. Qed.

Lemma ids_app l1 l2 : ids (l1 ++ l2) = ids l1 ++ ids l2.
Proof. unfold ids. apply map_app. Qed.

Lemma receiving_receive h confirmed i v ab :
  0 <= i ->
  receiving h confirmed i ab ->
  receiving h confirmed (i + 1) (receiveCoin confirmed (mkCoin i h v) ab).
Proof.
  intros Hi [Hnd Hreg]. unfold receiveCoin. destruct confirmed; cbv beta iota.
  - cbn [txid index].
    assert (Hfresh : ~ In (h, i) (ids (unspent ab ++ spent ab))).
    { unfold ids. rewrite in_map_iff. intros (c & Hid & Hc).
      unfold coinId in Hid. injection Hid as Ht Hx.
      specialize (Hreg c Hc Ht). lia. }
    destruct (findIndex (findFunc h i) (unconfirmed ab)) as [ind|] eqn:F.
    + destruct (findIndex_Some _ _ _ F) as (l1 & x & l2 & Hu & Hlen & Hx & _).
      rewrite Hu, <- Hlen, splice1_at. cbn [snd]. split.
      * unfold allCoins in *. cbn [unspent spent unconfirmed]. rewrite Hu in Hnd.
        assert (Hidx : coinId x = (h, i)).
        { unfold findFunc in Hx. apply andb_true_iff in Hx. destruct Hx as [H1 H2].
          apply String.eqb_eq in H1. apply Z.eqb_eq in H2. unfold coinId. congruence. }
        apply (Permutation_NoDup
                 (l := ids (mkCoin i h v :: unspent ab ++ spent ab ++ l1 ++ l2))).
        { unfold ids. apply Permutation_map. rewrite <- app_assoc. simpl.
          apply Permutation_middle. }
        assert (Hx' : NoDup (ids (x :: unspent ab ++ spent ab ++ l1 ++ l2))).
        { apply (Permutation_NoDup (l := ids (unspent ab ++ spent ab ++ l1 ++ x :: l2)));
            [|assumption].
          unfold ids. apply Permutation_map. rewrite !app_assoc.
          apply Permutation_sym, Permutation_middle. }
        simpl in Hx'. simpl. unfold coinId at 1. simpl. rewrite <- Hidx. exact Hx'.
      * cbn [unspent spent]. intros c Hc Ht.
        rewrite <- app_assoc in Hc. apply in_app_or in Hc. destruct Hc as [Hc|Hc].
        -- assert (0 <= index c < i) by (apply Hreg; [apply in_or_app; now left | assumption]).
           lia.
        -- simpl in Hc. destruct Hc as [<-|Hc]; [simpl; lia|].
           assert (0 <= index c < i) by (apply Hreg; [apply in_or_app; now right | assumption]).
           lia.
    + split.
      * unfold allCoins in *. cbn [unspent spent unconfirmed].
        apply (Permutation_NoDup
                 (l := ids (mkCoin i h v :: unspent ab ++ spent ab ++ unconfirmed ab))).
        { unfold ids. apply Permutation_map. rewrite <- app_assoc. simpl.
          apply Permutation_middle. }
        simpl. constructor; [|assumption]. unfold coinId at 1. simpl.
        rewrite app_assoc, ids_app. intros Hin. apply in_app_or in Hin.
        destruct Hin as [Hin|Hin]; [contradiction|].
        unfold ids in Hin. apply in_map_iff in Hin. destruct Hin as (c & Hid & Hc).
        apply (proj1 (findIndex_None _ _) F) in Hc. unfold findFunc in Hc.
        unfold coinId in Hid. injection Hid as Ht Hx.
        rewrite Ht, Hx, String.eqb_refl, Z.eqb_refl in Hc. discriminate.
      * cbn [unspent spent]. intros c Hc Ht.
        rewrite <- app_assoc in Hc. apply in_app_or in Hc. destruct Hc as [Hc|Hc].
        -- assert (0 <= index c < i) by (apply Hreg; [apply in_or_app; now left | assumption]).
           lia.
        -- simpl in Hc. destruct Hc as [<-|Hc]; [simpl; lia|].
           assert (0 <= index c < i) by (apply Hreg; [apply in_or_app; now right | assumption]).
           lia.
  - assert (Hp : Permutation (mkCoin i h v :: allCoins ab)
                   (allCoins (mkAssetBalance (unspent ab) (spent ab)
                                (unconfirmed ab ++ [mkCoin i h v])))).
    { unfold allCoins. cbn [unspent spent unconfirmed]. rewrite !app_assoc.
      apply Permutation_cons_append. }
    split.
    + apply (Permutation_NoDup (l := ids (mkCoin i h v :: allCoins ab)));
        [unfold ids; now apply Permutation_map|].
      simpl. constructor; [|assumption]. unfold coinId at 1. simpl.
      unfold ids. rewrite in_map_iff. intros (c & Hid & Hc).
      unfold coinId in Hid. injection Hid as Ht Hx.
      specialize (Hreg c Hc Ht). lia.
    + intros c Hc Ht. apply (Permutation_in c (Permutation_sym Hp)) in Hc.
      destruct Hc as [<-|Hc]; [simpl; lia|].
      specialize (Hreg c Hc Ht). lia.
Qed.

Lemma addCoins_receiving (ASSETS : string -> option string) h confirmed outs :
  forall i b, 0 <= i ->
    ledgersAll (receiving h confirmed i) (assets b) ->
    ledgersAll (receiving h confirmed (i + Z.of_nat (List.length outs)))
      (assets (store (addCoins ASSETS confirmed h i outs b))).
Proof.
  induction outs as [|output outs IH]; intros i b Hi Ha.
  - simpl. apply (ledgersAll_impl (receiving h confirmed i)); [|assumption].
    intros ab. apply receiving_mono. lia.
  - cbn [addCoins].
    destruct (JsObj.get (assets b)
                match ASSETS (assetId output) with Some s => s | None => "undefined" end)
      as [ab|] eqn:G.
    + replace (i + Z.of_nat (List.length (output :: outs)))
        with ((i + 1) + Z.of_nat (List.length outs)) by (simpl List.length; lia).
      apply IH; [lia|]. simpl.
      apply ledgersAll_set.
      * apply receiving_receive; [assumption | now apply (Ha _ _ G)].
      * apply (ledgersAll_impl (receiving h confirmed i)); [|assumption].
        intros ab'. apply receiving_mono. lia.
    + apply (ledgersAll_impl (receiving h confirmed i)).
      { intros ab'. apply receiving_mono. lia. }
      destruct (ASSETS (assetId output)); simpl; [|assumption].
      apply ledgersAll_set; [apply receiving_empty | assumption].
Qed.

Lemma applyTx_nodup (ASSETS : string -> option string) tx confirmed b :
  ledgersAll (fun ab => NoDup (ids (allCoins ab))) (assets b) ->
  ledgersAll (noCoinOf (hash tx) confirmed) (assets b) ->
  ledgersAll (fun ab => NoDup (ids (allCoins ab)))
    (assets (store (applyTx ASSETS tx confirmed b))).
Proof.
  intros Hnd Hno. unfold applyTx.
  assert (Hs : ledgersAll (receiving (hash tx) confirmed 0)
                 (assets (store (spendCoins (inputs tx) b)))).
  { apply spendCoins_all.
    - intros ab l1 c l2. apply receiving_spend.
    - intros k ab G. apply receiving_start; [now apply (Hnd k) | now apply (Hno k)]. }
  destruct (spendCoins (inputs tx) b) as [b1|e b1]; simpl in *.
  - apply (ledgersAll_impl
             (receiving (hash tx) confirmed (0 + Z.of_nat (List.length (outputs tx))))).
    { intros ab [H _]. exact H. }
    apply addCoins_receiving; [lia | assumption].
  - apply (ledgersAll_impl (receiving (hash tx) confirmed 0)); [|assumption].
    intros ab [H _]. exact H.
Qed.

Lemma verified_nodup getTxOut url ab :
  NoDup (ids (allCoins ab)) -> NoDup (ids (allCoins (verified getTxOut url ab))).
Proof.
  intros Hnd. unfold allCoins in *. simpl. rewrite app_nil_r.
  rewrite ids_app in Hnd. apply NoDup_app_remove_r in Hnd.
  apply (Permutation_NoDup (l := ids (unspent ab))); [|assumption].
  unfold ids. apply Permutation_map, Permutation_sym, partition_perm.
Qed.

Lemma promote_nodup ab :
  NoDup (ids (allCoins ab)) -> NoDup (ids (allCoins (promote ab))).
Proof.
  intros Hnd. apply (Permutation_NoDup (l := ids (allCoins ab))); [|assumption].
  unfold ids. apply Permutation_map. unfold allCoins, promote. simpl.
  rewrite app_nil_r, <- app_assoc. apply Permutation_app_head, Permutation_app_comm.
Qed.

Lemma assign_verified_nodup getTxOut url ks a0 :
  ledgersAll (fun ab => NoDup (ids (allCoins ab))) a0 ->
  forall a,
    ledgersAll (fun ab => NoDup (ids (allCoins ab))) a ->
    ledgersAll (fun ab => NoDup (ids (allCoins ab)))
      (fold_left (fun o k => JsObj.set o k (verifiedAt getTxOut url a0 k)) ks a).
Proof.
  intros Ha0. induction ks as [|k ks IH]; intros a Ha; simpl; [assumption|].
  apply IH. apply ledgersAll_set; [|assumption].
  unfold verifiedAt. destruct (JsObj.get a0 k) as [ab|] eqn:G.
  - apply verified_nodup. now apply (Ha0 k).
  - constructor.
Qed.

Lemma runOp_nodup (ASSETS : string -> option string) op b :
  ledgersAll (fun ab => NoDup (ids (allCoins ab))) (assets b) ->
  opAdmissible op b ->
  ledgersAll (fun ab => NoDup (ids (allCoins ab))) (assets (runOp ASSETS op b)).
Proof.
  intros Hnd Hop. destruct op as [sym l|tx confirmed| |getTxOut url]; simpl in *.
  - now apply ledgersAll_set.
  - now apply applyTx_nodup.
  - apply confirm_all; [|assumption]. intros ab. apply promote_nodup.
  - destruct (verifyAssets getTxOut url b) as [b'|e b'] eqn:Hv; simpl.
    + destruct (verifyAssets_inv _ _ _ _ Hv) as (_ & ->). simpl.
      now apply assign_verified_nodup.
    + unfold verifyAssets in Hv. destruct (Promise_all _); [discriminate|].
      inversion Hv. now subst.
Qed.

Lemma runOps_nodup (ASSETS : string -> option string) ops :
  forall b,
    ledgersAll (fun ab => NoDup (ids (allCoins ab))) (assets b) ->
    admissible ASSETS ops b ->
    ledgersAll (fun ab => NoDup (ids (allCoins ab))) (assets (runOps ASSETS ops b)).
Proof.
  induction ops as [|op ops IH]; intros b Hnd Hadm; [assumption|].
  destruct Hadm as [Hop Hrest].
  unfold runOps. simpl fold_left. fold (runOps ASSETS ops (runOp ASSETS op b)).
  apply IH; [now apply runOp_nodup | assumption].
Qed.

Lemma nodup_disjoint ab : NoDup (ids (allCoins ab)) -> coinSetsDisjoint ab.
Proof.
  intros Hnd. unfold allCoins, ids in Hnd. rewrite !map_app in Hnd.
  unfold coinSetsDisjoint, ids. repeat split.
  - apply NoDup_app_disjoint. rewrite app_assoc in Hnd.
    now apply NoDup_app_remove_r in Hnd.
  - intros x H1 H2. apply (NoDup_app_disjoint _ _ Hnd x H1).
    apply in_or_app. now right.
  - apply NoDup_app_disjoint. now apply NoDup_app_remove_l in Hnd.
Qed.

(** C6, as the code has it: start from the empty Balance and run any
    sequence of addAsset, applyTx, confirm and verifyAssets in which every
    snapshot given to addAsset has pairwise distinct coin identities and
    every transaction is applied to a Balance that holds no coin created by
    it, its pending coins apart when it is applied as confirmed (so a
    transaction applied as unconfirmed may be applied again as confirmed
    while its coins are pending).  Then in every ledger the identities of
    the unspent, spent and unconfirmed coins are pairwise disjoint, and in
    fact pairwise distinct over the three lists. *)
Theorem coin_sets_disjoint_admissible (ASSETS : string -> option string) ops sym ab :
  admissible ASSETS ops emptyBalance ->
  JsObj.get (assets (runOps ASSETS ops emptyBalance)) sym = Some ab ->
  coinSetsDisjoint ab /\ NoDup (ids (allCoins ab)).
Proof.
  intros Hadm G.
  assert (Hnd : NoDup (ids (allCoins ab))).
  { apply (runOps_nodup ASSETS ops emptyBalance) with (k := sym); try assumption.
    intros k ab' Gk. discriminate. }
  split; [now apply nodup_disjoint | assumption].
Qed.

End Program.

(** ** The scenarios, on ASCII symbols and exact amounts *)

Lemma upper_ascii_idempotent c : upper_ascii (upper_ascii c) = upper_ascii c.
Proof.
  destruct c as [[] [] [] [] [] [] [] []]; reflexivity.
Qed.

Lemma asciiUpperCase_idempotent s :
  asciiUpperCase (asciiUpperCase s) = asciiUpperCase s.
Proof.
  induction s as [|c s IH]; simpl; [reflexivity|].
  now rewrite upper_ascii_idempotent, IH.
Qed.

Lemma asciiUpperCase_undefined : asciiUpperCase "undefined" <> "undefined".
Proof. discriminate. Qed.

Lemma spendCoins_first_owner_witness :
  spendCoins (inputs txC) bothAssets
  = Normal (with_assets bothAssets
              [("NEO", mkAssetBalance [] [] []); ("GAS", mkAssetBalance [] [coinA] [])])
  /\ exists l1 coin l2,
       [coinA] = l1 ++ coin :: l2 /\ matches (mkInput "aa" 0) coin /\
       (forall c, In c l1 -> ~ matches (mkInput "aa" 0) c) /\
       spendAll ([] ++ [mkInput "aa" 0]) ["NEO"; "GAS"] twoLedgers
       = JsObj.set twoLedgers "GAS" (mkAssetBalance (l1 ++ l2) ([] ++ [coin]) []).
Proof.
  assert (Htr : tracked bothAssets).
  { intros sym [<-|[<-|[]]]; simpl; discriminate. }
  destruct (spendCoins_first_owner asciiUpperCase sampleNumber sampleOfNumber sampleOfString nativeAssets txC true bothAssets Htr)
    as (Hsp & _ & Hin).
  split; [exact Hsp|].
  destruct (Hin [] (mkInput "aa" 0) [] eq_refl) as [Hhit _].
  apply (Hhit ["NEO"] "GAS" [] (mkAssetBalance [coinA] [] [])).
  - reflexivity.
  - intros s ab' [<-|[]] G. simpl in G. inversion G; subst.
    intros (c & [] & _).
  - reflexivity.
  - exists coinA. split; [now left | split; reflexivity].
Defined.

Lemma applyTx_scenarioA_throws_witness :
  applyTx asciiUpperCase sampleNumber sampleOfNumber sampleOfString nativeAssets
    txA false emptyBalance
  = Abrupt TypeError
      (addAsset asciiUpperCase sampleNumber sampleOfNumber sampleOfString
         "GAS" None emptyBalance)
  /\ assets (addAsset asciiUpperCase sampleNumber sampleOfNumber sampleOfString
               "GAS" None emptyBalance)
     = [("GAS", mkAssetBalance [] [] [])].
Proof.
  apply (applyTx_scenarioA_throws asciiUpperCase sampleNumber sampleOfNumber
           sampleOfString nativeAssets gasId ten "addr" "aa").
  reflexivity.
Defined.

Lemma applyTx_untracked_output_throws_witness :
  returns (applyTx asciiUpperCase sampleNumber sampleOfNumber sampleOfString
             nativeAssets txA true emptyBalance) = false.
Proof.
  apply (applyTx_untracked_output_throws asciiUpperCase sampleNumber sampleOfNumber sampleOfString nativeAssets emptyBalance txA true
           (mkOutput gasId ten "addr") [] "GAS").
  - intros sym [].
  - reflexivity.
  - reflexivity.
  - reflexivity.
Defined.

Lemma confirm_promotes_witness :
  exists b', confirm scenarioA = Normal b' /\
             JsObj.get (assets b') "GAS" = Some (mkAssetBalance [coinA] [] []) /\
             confirm b' = Normal b'.
Proof.
  assert (Htr : tracked scenarioA).
  { intros sym [<-|[]]. simpl. discriminate. }
  destruct (confirm_promotes scenarioA Htr)
    as (b' & Heq & _ & _ & _ & _ & _ & _ & Hin & _ & Hagain).
  exists b'. split; [assumption|]. split; [|assumption].
  apply (Hin "GAS" (mkAssetBalance [] [] [coinA])); [now left | reflexivity].
Defined.

(** Scenario A on a Balance that tracks GAS: the coin is pending. *)
Example scenarioA_tracked :
  applyTx asciiUpperCase sampleNumber sampleOfNumber sampleOfString nativeAssets
    txA false gasOnly = Normal scenarioA.
Proof. reflexivity. Qed.

(** Scenario B: after Scenario A on a Balance tracking GAS, confirm moves the
    coin to [unspent] and the balance reads ten units. *)
Example scenarioB :
  exists b', confirm scenarioA = Normal b' /\
    JsObj.get (assets b') "GAS" = Some (mkAssetBalance [coinA] [] []) /\
    balance (mkAssetBalance [coinA] [] []) = ten.
Proof. eexists. repeat split. Qed.

(** Scenario C: spending that coin in a confirmed transaction moves it to
    [spent] and the balance reads zero. *)
Example scenarioC :
  exists b',
    andThen (confirm scenarioA)
      (applyTx asciiUpperCase sampleNumber sampleOfNumber sampleOfString nativeAssets
         txC true) = Normal b' /\
    JsObj.get (assets b') "GAS" = Some (mkAssetBalance [] [coinA] []) /\
    balance (mkAssetBalance [] [coinA] []) = 0.
Proof. eexists. repeat split. Qed.

Lemma coin_sets_disjoint_admissible_witness :
  coinSetsDisjoint (mkAssetBalance [] [coinA] []) /\
  NoDup (ids (allCoins (mkAssetBalance [] [coinA] []))).
Proof.
  apply (coin_sets_disjoint_admissible asciiUpperCase sampleNumber sampleOfNumber
           sampleOfString nativeAssets
           [OpAddAsset sampleNumber "GAS" None; OpApplyTx sampleNumber txA false;
            OpApplyTx sampleNumber txA true; OpConfirm sampleNumber;
            OpApplyTx sampleNumber txC true]
           "GAS").
  - simpl. repeat split; try constructor;
      apply ledgersAll_of_Forall; repeat constructor;
      intros c Hc; simpl in Hc; intuition (subst; discriminate).
  - reflexivity.
Defined.

(** C6, as stated, fails: applying one transaction twice, first confirmed
    and then unconfirmed, leaves the identity of its output both in
    [unspent] and in [unconfirmed]. *)
Lemma coin_sets_overlap :
  exists ab,
    JsObj.get
      (assets (runOps asciiUpperCase sampleNumber sampleOfNumber sampleOfString
                 nativeAssets
                 [OpAddAsset sampleNumber "GAS" None; OpApplyTx sampleNumber txA true;
                  OpApplyTx sampleNumber txA false]
                 emptyBalance)) "GAS" = Some ab
    /\ ~ coinSetsDisjoint ab.
Proof.
  exists (mkAssetBalance [coinA] [] [coinA]). split; [reflexivity|].
  intros (_ & Huc & _). apply (Huc (coinId coinA)); now left.
Qed.

(** A snapshot given to addAsset is taken as it is: one that lists a coin
    both as unspent and as spent gives a ledger whose sets overlap. *)
Lemma addAsset_snapshot_overlap :
  exists ab,
    JsObj.get
      (assets (addAsset asciiUpperCase sampleNumber sampleOfNumber sampleOfString "GAS"
                 (Some (mkAssetBalanceLike sampleNumber None
                          (Some [mkCoinLike sampleNumber 0 "aa" (ANumber sampleNumber ten)])
                          (Some [mkCoinLike sampleNumber 0 "aa" (ANumber sampleNumber ten)])
                          None))
                 emptyBalance)) "GAS" = Some ab
    /\ ~ coinSetsDisjoint ab.
Proof.
  exists (mkAssetBalance [coinA] [coinA] []). split; [reflexivity|].
  intros (Hus & _). apply (Hus (coinId coinA)); now left.
Qed.

Lemma verifyAssets_classifies_witness :
  exists b',
    verifyAssets sampleNumber sampleOfNumber sampleOfString nodeWithout "node" scenarioD
    = Normal b' /\
    exists ab',
      JsObj.get (assets b') "GAS" = Some ab' /\
      unspent ab' = [] /\ balance ab' = 0 /\ spent ab' = [coinD] /\ unconfirmed ab' = [].
Proof.
  destruct (verifyAssets_classifies sampleNumber sampleOfNumber sampleOfString
              nodeWithout "node" scenarioD) as (_ & Hok & Hres).
  destruct Hok as (b' & Hv).
  { intros sym [<-|[]]. simpl. discriminate. }
  { intros sym ab c _ _ _. now exists None. }
  exists b'. split; [assumption|].
  destruct (Hres b' Hv) as (_ & _ & _ & _ & _ & Hled).
  apply (Hled "GAS" (mkAssetBalance [coinD] [coinA] [mkCoin 0 "ee" ten]));
    [now left | reflexivity].
Defined.

(** Scenario D, by evaluation: the coin the node does not know ends in
    [spent]; the former [spent] and [unconfirmed] coins are gone. *)
Example scenarioD_verified :
  verifyAssets sampleNumber sampleOfNumber sampleOfString nodeWithout "node" scenarioD
  = Normal (with_assets scenarioD [("GAS", mkAssetBalance [] [coinD] [])]).
Proof. reflexivity. Qed.

Lemma verifyAssets_rejects_witness :
  exists e',
    verifyAssets sampleNumber sampleOfNumber sampleOfString nodeDown "node" scenarioD
    = Abrupt e' scenarioD.
Proof.
  apply (verifyAssets_rejects sampleNumber sampleOfNumber sampleOfString
           nodeDown "node" scenarioD "GAS"
           (mkAssetBalance [coinD] [coinA] [mkCoin 0 "ee" ten]) coinD QueryFailure).
  - now left.
  - reflexivity.
  - now left.
  - reflexivity.
Defined.

Lemma verifyAssets_spent_witness :
  exists ab',
    JsObj.get (assets (with_assets scenarioD [("GAS", mkAssetBalance [] [coinD] [])]))
      "GAS" = Some ab' /\
    spent ab' = filter (fun c => negb (coinValid nodeWithout "node" c)) [coinD] /\
    forall c, In c (spent ab') <->
              In c [coinD] /\ coinValid nodeWithout "node" c = false.
Proof.
  apply (verifyAssets_spent sampleNumber sampleOfNumber sampleOfString
           nodeWithout "node" scenarioD
           (with_assets scenarioD [("GAS", mkAssetBalance [] [coinD] [])]) "GAS"
           (mkAssetBalance [coinD] [coinA] [mkCoin 0 "ee" ten])).
  - reflexivity.
  - now left.
  - reflexivity.
Defined.

Lemma export_roundtrip_witness :
  JsObj.get
    (assets (newBalance asciiUpperCase sampleNumber sampleOfNumber sampleOfString
               (export sampleNumber sampleToNumber scenarioD))) "GAS"
  = JsObj.get (assets scenarioD) "GAS"
  /\ assetSymbols (newBalance asciiUpperCase sampleNumber sampleOfNumber sampleOfString
                     (export sampleNumber sampleToNumber scenarioD)) = ["GAS"].
Proof.
  assert (Hwf : wellFormed asciiUpperCase scenarioD).
  { split; [discriminate|]. split; split; simpl.
    - repeat constructor. intros [].
    - intros k [<-|[]]. reflexivity.
    - constructor.
    - intros k []. }
  assert (Hex : exactBalance sampleNumber sampleToNumber sampleOfNumber scenarioD).
  { split; [|intros k v G; discriminate].
    apply ledgersAll_of_Forall. repeat constructor. }
  destruct (export_roundtrip asciiUpperCase sampleNumber sampleToNumber sampleOfNumber
              sampleOfString scenarioD Hwf Hex) as (_ & _ & Hget & _ & Hsyms & _).
  split; [apply Hget | apply Hsyms].
Defined.

(** C9, as stated, fails: after addAsset is called twice with one symbol the
    list [assetSymbols] holds it twice, and the Balance rebuilt from the
    export holds it once. *)
Lemma export_roundtrip_loses_duplicates :
  addAsset asciiUpperCase sampleNumber sampleOfNumber sampleOfString "GAS" None gasOnly
  = gasTwice /\
  assetSymbols (newBalance asciiUpperCase sampleNumber sampleOfNumber sampleOfString
                  (export sampleNumber sampleToNumber gasTwice)) = ["GAS"] /\
  newBalance asciiUpperCase sampleNumber sampleOfNumber sampleOfString
    (export sampleNumber sampleToNumber gasTwice) <> gasTwice.
Proof.
  split; [reflexivity|]. split; [reflexivity|]. discriminate.
Qed.

Lemma addAsset_twice_witness :
  assetSymbols
    (addAsset asciiUpperCase sampleNumber sampleOfNumber sampleOfString "GAS" None
       (addAsset asciiUpperCase sampleNumber sampleOfNumber sampleOfString "gas"
          (Some (mkAssetBalanceLike sampleNumber None
                   (Some [mkCoinLike sampleNumber 0 "aa" (ANumber sampleNumber ten)])
                   None None))
          emptyBalance))
  = ["GAS"; "GAS"]
  /\ assets
       (addAsset asciiUpperCase sampleNumber sampleOfNumber sampleOfString "GAS" None
          (addAsset asciiUpperCase sampleNumber sampleOfNumber sampleOfString "gas"
             (Some (mkAssetBalanceLike sampleNumber None
                      (Some [mkCoinLike sampleNumber 0 "aa" (ANumber sampleNumber ten)])
                      None None))
             emptyBalance))
     = [("GAS", mkAssetBalance [] [] [])].
Proof.
  destruct (addAsset_twice asciiUpperCase sampleNumber sampleOfNumber sampleOfString
              "gas" "GAS"
              (Some (mkAssetBalanceLike sampleNumber None
                       (Some [mkCoinLike sampleNumber 0 "aa" (ANumber sampleNumber ten)])
                       None None))
              None emptyBalance eq_refl) as (Hs & Ha & _).
  split; [exact Hs | exact Ha].
Defined.

Lemma addToken_twice_witness :
  tokenSymbols
    (addToken asciiUpperCase sampleNumber sampleOfNumber sampleOfString "RPX"
       (Some (ANumber sampleNumber 9)) withToken) = ["RPX"; "RPX"]
  /\ tokens
       (addToken asciiUpperCase sampleNumber sampleOfNumber sampleOfString "RPX"
          (Some (ANumber sampleNumber 9)) withToken) = [("RPX", 9)].
Proof.
  destruct (addToken_twice asciiUpperCase sampleNumber sampleOfNumber sampleOfString
              "rpx" "RPX" (Some (AFixed8 sampleNumber 5)) (Some (ANumber sampleNumber 9))
              gasOnly eq_refl) as (Hs & Ht & _).
  split; [exact Hs | exact Ht].
Defined.

Lemma runOps_keep_assets_witness :
  JsObj.get
    (assets (runOps asciiUpperCase sampleNumber sampleOfNumber sampleOfString nativeAssets
               [OpApplyTx sampleNumber txC true; OpConfirm sampleNumber;
                OpVerifyAssets sampleNumber nodeWithout "node";
                OpApplyTx sampleNumber txUnknown false]
               scenarioD)) "GAS" <> None.
Proof.
  apply (proj2 (runOps_keep_assets asciiUpperCase sampleNumber sampleOfNumber sampleOfString nativeAssets
                  [OpApplyTx sampleNumber txC true; OpConfirm sampleNumber;
                   OpVerifyAssets sampleNumber nodeWithout "node";
                   OpApplyTx sampleNumber txUnknown false] scenarioD)).
  simpl. discriminate.
Defined.

Lemma reachable_invariant_witness :
  In "GAS"
    (assetSymbols
       (runOps asciiUpperCase sampleNumber sampleOfNumber sampleOfString nativeAssets
          [OpApplyTx sampleNumber txA false]
          (newBalance asciiUpperCase sampleNumber sampleOfNumber sampleOfString
             (mkBalanceLike sampleNumber None None None None None None)))).
Proof.
  apply (proj1 (reachable_invariant asciiUpperCase asciiUpperCase_idempotent sampleNumber
                  sampleOfNumber sampleOfString nativeAssets
                  [OpApplyTx sampleNumber txA false]
                  (mkBalanceLike sampleNumber None None None None None None))).
  simpl. discriminate.
Defined.

Lemma scenarioD_sound : sound asciiUpperCase scenarioD.
Proof.
  split; [intros sym [<-|[]]; simpl; discriminate|].
  split; [discriminate|]. split; split; simpl.
  - repeat constructor. intros [].
  - intros k [<-|[]]. reflexivity.
  - constructor.
  - intros k [].
Qed.

Lemma bothAssets_sound : sound asciiUpperCase bothAssets.
Proof.
  split; [intros sym [<-|[<-|[]]]; simpl; discriminate|].
  split; [discriminate|]. split; split; simpl.
  - repeat constructor; simpl; intuition discriminate.
  - intros k [<-|[<-|[]]]; reflexivity.
  - constructor.
  - intros k [].
Qed.

Lemma txThree_tracked : outputsTracked nativeAssets (outputs txThree) (assets bothAssets).
Proof.
  intros out [<-|[<-|[<-|[]]]]; simpl; eexists; (split; [reflexivity | discriminate]).
Qed.

Lemma applyTx_unknown_asset_witness :
  exists b1,
    spendCoins (inputs txUnknown) scenarioD = Normal b1 /\
    applyTx asciiUpperCase sampleNumber sampleOfNumber sampleOfString nativeAssets
      txUnknown true scenarioD = Abrupt TypeError b1.
Proof.
  apply (applyTx_unknown_asset asciiUpperCase asciiUpperCase_undefined sampleNumber
           sampleOfNumber sampleOfString nativeAssets scenarioD txUnknown
           true (mkOutput "00" ten "addr") []).
  - exact scenarioD_sound.
  - reflexivity.
  - reflexivity.
Defined.

Lemma applyTx_unconfirmed_lands_witness :
  exists b',
    applyTx asciiUpperCase sampleNumber sampleOfNumber sampleOfString nativeAssets
      txThree false bothAssets = Normal b' /\
    JsObj.get (assets b') "GAS"
    = Some (mkAssetBalance [] [coinA] [mkCoin 0 "tt" ten; mkCoin 2 "tt" 7]).
Proof.
  destruct (applyTx_unconfirmed_lands asciiUpperCase sampleNumber sampleOfNumber sampleOfString nativeAssets txThree bothAssets)
    as (b1 & b' & Hsp & Happ & _ & _ & Hland).
  - exact (proj1 bothAssets_sound).
  - exact txThree_tracked.
  - exists b'. split; [assumption|].
    injection Hsp as <-.
    apply (Hland "GAS" (mkAssetBalance [] [coinA] [])). reflexivity.
Defined.

Lemma applyTx_confirmed_lands_witness :
  exists b',
    applyTx asciiUpperCase sampleNumber sampleOfNumber sampleOfString nativeAssets
      txThree true bothAssets = Normal b' /\
    JsObj.get (assets b') "GAS"
    = Some (mkAssetBalance [mkCoin 0 "tt" ten; mkCoin 2 "tt" 7] [coinA] []).
Proof.
  destruct (applyTx_confirmed_lands asciiUpperCase sampleNumber sampleOfNumber sampleOfString nativeAssets txThree bothAssets)
    as (b1 & b' & Hsp & Happ & _ & _ & Hland).
  - exact (proj1 bothAssets_sound).
  - exact txThree_tracked.
  - apply ledgersAll_of_Forall. repeat constructor; intros c [].
  - exists b'. split; [assumption|].
    injection Hsp as <-.
    apply (Hland "GAS" (mkAssetBalance [] [coinA] [])). reflexivity.
Defined.

Lemma applyTx_then_confirm_witness :
  andThen (applyTx asciiUpperCase sampleNumber sampleOfNumber sampleOfString nativeAssets
             txThree false bothAssets) confirm
  = applyTx asciiUpperCase sampleNumber sampleOfNumber sampleOfString nativeAssets
      txThree true bothAssets.
Proof.
  apply (applyTx_then_confirm asciiUpperCase sampleNumber sampleOfNumber
           sampleOfString nativeAssets txThree bothAssets).
  - exact bothAssets_sound.
  - intros k Hk.
    now apply get_in_keys in Hk.
  - apply ledgersAll_of_Forall. repeat constructor.
  - exact txThree_tracked.
Defined.

Lemma confirm_adds_pending_witness :
  exists b',
    confirm scenarioA = Normal b' /\
    exists ab',
      JsObj.get (assets b') "GAS" = Some ab' /\
      balance ab' = 0 + sumValues [coinA] /\
      Permutation (allCoins ab') [coinA].
Proof.
  destruct (confirm_adds_pending scenarioA) as (b' & Hc & Hall).
  - intros sym [<-|[]]. simpl. discriminate.
  - exists b'. split; [assumption|].
    apply (Hall "GAS" (mkAssetBalance [] [] [coinA])); [now left | reflexivity].
Defined.

Lemma verifyAssets_twice_witness :
  JsObj.get (assets (with_assets scenarioD [("GAS", mkAssetBalance [] [] [])])) "GAS"
  = Some (mkAssetBalance (filter (coinValid nodeWithout "node") [coinD]) [] []).
Proof.
  apply (verifyAssets_twice sampleNumber sampleOfNumber sampleOfString
           nodeWithout "node" scenarioD
           (with_assets scenarioD [("GAS", mkAssetBalance [] [coinD] [])])
           (with_assets scenarioD [("GAS", mkAssetBalance [] [] [])]) "GAS"
           (mkAssetBalance [coinD] [coinA] [mkCoin 0 "ee" ten])).
  - reflexivity.
  - reflexivity.
  - now left.
  - reflexivity.
Defined.

Lemma verifyAssets_value_witness :
  exists ab',
    JsObj.get (assets (with_assets scenarioD [("GAS", mkAssetBalance [] [coinD] [])]))
      "GAS" = Some ab' /\
    balance ab' + sumValues (spent ab') = balance (mkAssetBalance [coinD] [coinA] [mkCoin 0 "ee" ten]) /\
    ((forall c, In c [coinD] -> 0 <= value c) ->
     balance ab' <= balance (mkAssetBalance [coinD] [coinA] [mkCoin 0 "ee" ten])).
Proof.
  apply (verifyAssets_value sampleNumber sampleOfNumber sampleOfString
           nodeWithout "node" scenarioD
           (with_assets scenarioD [("GAS", mkAssetBalance [] [coinD] [])]) "GAS"
           (mkAssetBalance [coinD] [coinA] [mkCoin 0 "ee" ten])).
  - reflexivity.
  - now left.
  - reflexivity.
Defined.

Lemma newBalance_builds_witness :
  let b := newBalance asciiUpperCase sampleNumber sampleOfNumber sampleOfString
             (mkBalanceLike sampleNumber None (Some "") (Some ["X"; "X"])
                (Some [("NEO", mkAssetBalanceLike sampleNumber (Some (ANumber sampleNumber 99))
                                 None (Some [coinAsLike sampleNumber coinA]) None);
                       ("7", mkAssetBalanceLike sampleNumber None None None None)])
                None (Some [("RPX", ANumber sampleNumber 5)])) in
  net b = "NoNet" /\ assetSymbols b = ["7"; "NEO"] /\
  JsObj.get (assets b) "NEO" = Some (mkAssetBalance [] [coinA] []) /\
  JsObj.get (tokens b) "RPX" = Some 5.
Proof.
  destruct (newBalance_builds asciiUpperCase sampleNumber sampleOfNumber
              sampleOfString None (Some "") (Some ["X"; "X"])
              [("NEO", mkAssetBalanceLike sampleNumber (Some (ANumber sampleNumber 99))
                         None (Some [coinAsLike sampleNumber coinA]) None);
               ("7", mkAssetBalanceLike sampleNumber None None None None)]
              None [("RPX", ANumber sampleNumber 5)])
    as (_ & Hn & Hs & _ & _ & _ & Hg & Ht).
  - split; simpl.
    + repeat constructor; simpl; intuition discriminate.
    + intros k [<-|[<-|[]]]; reflexivity.
  - split; simpl.
    + repeat constructor; simpl; intuition discriminate.
    + intros k [<-|[]]; reflexivity.
  - cbv zeta. split; [exact Hn|]. split; [exact Hs|].
    split; [exact (Hg "NEO") | exact (Ht "RPX")].
Defined.

Lemma export_entries_witness :
  JsObj.insertion_keys
    (exportAssets sampleNumber sampleToNumber
       [("NEO", mkAssetBalance [] [] []); ("7", mkAssetBalance [coinA] [] [])])
  = ["7"; "NEO"].
Proof.
  apply (proj1 (proj2 (proj2 (export_entries sampleNumber sampleToNumber
           [("NEO", mkAssetBalance [] [] []); ("7", mkAssetBalance [coinA] [] [])] [])))).
  repeat constructor; simpl; intuition discriminate.
Defined.

Lemma export_stable_witness :
  let b := addToken asciiUpperCase sampleNumber sampleOfNumber sampleOfString "RPX"
             (Some (ANumber sampleNumber 5)) scenarioD in
  newBalance asciiUpperCase sampleNumber sampleOfNumber sampleOfString
    (export sampleNumber sampleToNumber
       (newBalance asciiUpperCase sampleNumber sampleOfNumber sampleOfString
          (export sampleNumber sampleToNumber b)))
  = newBalance asciiUpperCase sampleNumber sampleOfNumber sampleOfString
      (export sampleNumber sampleToNumber b).
Proof.
  destruct (export_stable asciiUpperCase sampleNumber sampleToNumber sampleOfNumber
              sampleOfString
              (addToken asciiUpperCase sampleNumber sampleOfNumber sampleOfString "RPX"
                 (Some (ANumber sampleNumber 5)) scenarioD)) as (_ & _ & _ & _ & H).
  - split; [discriminate|]. split; split; simpl.
    + repeat constructor. intros [].
    + intros k [<-|[]]. reflexivity.
    + repeat constructor. intros [].
    + intros k [<-|[]]. reflexivity.
  - split.
    + apply ledgersAll_of_Forall. repeat constructor.
    + intros k v Hk. reflexivity.
  - exact H.
Defined.

Lemma applyTx_foreign_inputs_witness :
  applyTx asciiUpperCase sampleNumber sampleOfNumber sampleOfString nativeAssets
    (mkTx "ff" [mkInput "zz" 3; mkInput "dd" 0] []) true scenarioD
  = Normal scenarioD.
Proof.
  apply (applyTx_foreign_inputs asciiUpperCase sampleNumber sampleOfNumber sampleOfString
           nativeAssets (mkTx "ff" [mkInput "zz" 3; mkInput "dd" 0] []) true scenarioD).
  - intros sym [<-|[]]. simpl. discriminate.
  - intros input sym ab Hi [<-|[]] G. simpl in G. injection G as <-.
    intros (c & [<-|[]] & Hm & Hidx). simpl in *.
    destruct Hi as [<-|[<-|[]]]; simpl in *; discriminate.
  - reflexivity.
Defined.

Lemma applyTx_pending_then_confirmed_witness :
  andThen (applyTx asciiUpperCase sampleNumber sampleOfNumber sampleOfString nativeAssets
             txThree false bothAssets)
    (applyTx asciiUpperCase sampleNumber sampleOfNumber sampleOfString nativeAssets
       txThree true)
  = applyTx asciiUpperCase sampleNumber sampleOfNumber sampleOfString nativeAssets
      txThree true bothAssets.
Proof.
  apply (applyTx_pending_then_confirmed asciiUpperCase sampleNumber sampleOfNumber sampleOfString nativeAssets txThree bothAssets
           (with_assets bothAssets
              [("NEO", mkAssetBalance [] [] []); ("GAS", mkAssetBalance [] [coinA] [])])).
  - exact bothAssets_sound.
  - exact txThree_tracked.
  - apply ledgersAll_of_Forall. repeat constructor; intros c [].
  - reflexivity.
  - intros input sym ab Hi Hs G (c & Hc & _).
    destruct Hs as [<-|[<-|[]]]; simpl in G; injection G as <-; simpl in Hc; contradiction.
Defined.

Lemma spendInput_replay_witness :
  exists a1,
    spendInput (mkInput "aa" 0) ["NEO"; "GAS"] twoLedgers = Normal a1 /\
    spendInput (mkInput "aa" 0) ["NEO"; "GAS"] a1 = Normal a1.
Proof.
  apply (spendInput_replay (mkInput "aa" 0) ["NEO"; "GAS"] twoLedgers).
  - intros sym [<-|[<-|[]]]; simpl; discriminate.
  - split.
    + intros s ab l1 c l2 Hs G Hu Hm c' Hc'.
      destruct Hs as [<-|[<-|[]]]; simpl in G; injection G as <-; simpl in Hu.
      * destruct l1; discriminate.
      * destruct l1 as [|x [|y l1]]; simpl in Hu; try discriminate.
        injection Hu as _ <-. contradiction.
    + intros s s' ab ab' Hs Hs' Hne G G' (c & Hc & _) (c' & Hc' & _).
      destruct Hs as [<-|[<-|[]]]; simpl in G; injection G as <-; simpl in Hc;
        [contradiction|].
      destruct Hs' as [<-|[<-|[]]]; simpl in G'; injection G' as <-; simpl in Hc';
        [contradiction | now apply Hne].
Defined.
